(** * Collishi 0.2.0: the collision routines of [Collisions.h]

    A shallow embedding of the header's numeric helpers and of its thirteen
    collision predicates, followed by the properties proved about them.

    - The helper templates ([template <class T> constexpr ...]) become
      definitions polymorphic in a type [T] that carries the operators the
      template bodies use (the classes [Less] and [Scalar]).
    - The collision routines take C++ [float]s.  They are embedded over the
      same interface and read at the instance [float32]: IEEE 754 binary32
      values ([spec_float] with a 24 bit significand and exponent bound 128),
      with signed zeros, infinities, NaN and round-to-nearest-even
      arithmetic as specified by the Standard Library's [SpecFloat].
    - Every operation is rounded to binary32 as it is written: the
      embedding assumes neither a wider intermediate precision nor fused
      multiply-adds.
    - [std::minmax] over an initializer list is read as the GNU C++ library
      computes it ([std::minmax_element], which compares the elements in
      pairs).  On lists without NaN the result is what the C++ standard
      specifies, the leftmost smallest and the rightmost largest element;
      on a list with NaN it depends on the order of the comparisons, which
      the embedding follows.  The call requires a non-empty list; the
      embedding makes that the only possible failure ([None]). *)

From Stdlib Require Import ZArith QArith Qpower Bool List Lia Morphisms Setoid.
From Stdlib Require Import Floats.SpecFloat.
Import ListNotations.

Close Scope Q_scope.

(** ** The operators used by the code *)

(** [operator<], all that [between] and [overlap] ask of [T]. *)
Class Less (T : Type) := ltb : T -> T -> bool.

(** The arithmetic and comparison operators of a scalar type, and the value
    the literals [0.0f] and [static_cast<T>(0)] convert to.  The interface
    has no division: the header never divides. *)
Class Scalar (T : Type) := {
  scalar_less :: Less T;
  zero : T;
  eqb : T -> T -> bool;
  leb : T -> T -> bool;
  opp : T -> T;
  add : T -> T -> T;
  sub : T -> T -> T;
  mul : T -> T -> T
}.

Declare Scope cpp_scope.
Delimit Scope cpp_scope with cpp.
Notation "x < y" := (ltb x y) : cpp_scope.
Notation "x > y" := (ltb y x) : cpp_scope.
Notation "x <= y" := (leb x y) : cpp_scope.
Notation "x >= y" := (leb y x) : cpp_scope.
Notation "x == y" := (eqb x y) (at level 70, no associativity) : cpp_scope.
Notation "x != y" := (negb (eqb x y)) (at level 70, no associativity) : cpp_scope.
Notation "x + y" := (add x y) : cpp_scope.
Notation "x - y" := (sub x y) : cpp_scope.
Notation "x * y" := (mul x y) : cpp_scope.
Notation "- x" := (opp x) : cpp_scope.

(** ** [std::minmax] and the helpers that only compare *)

Section MinMax.
Context {T : Type} {L : Less T}.
Local Open Scope cpp_scope.

(** [std::minmax(a, b)]: the pair [(b, a)] if [b < a], else [(a, b)]. *)
Definition minmax (a b : T) : T * T :=
  if b < a then (b, a) else (a, b).

(** [std::minmax(std::initializer_list<T>)] returns the values found by
    [std::minmax_element], which the GNU C++ library computes in pairs.
    This is the loop over the elements after the first two, [lo] and [hi]
    being the minimum and maximum so far: of each pair the smaller element
    is compared with the minimum only and the larger with the maximum
    only; a last single element is compared with the minimum and, only if
    it is not below it, with the maximum.  The minimum is replaced by a
    strictly smaller element, the maximum by an element that is not
    smaller. *)
Fixpoint minmax_from (lo hi : T) (l : list T) : T * T :=
  match l with
  | [] => (lo, hi)
  | [x] =>
      if x < lo then (x, hi)
      else if negb (x < hi) then (lo, x)
      else (lo, hi)
  | x :: y :: l' =>
      if y < x
      then minmax_from (if y < lo then y else lo) (if negb (x < hi) then x else hi) l'
      else minmax_from (if x < lo then x else lo) (if negb (y < hi) then y else hi) l'
  end.

(** [std::minmax(std::initializer_list<T>)].  The list must not be empty;
    on an empty list the call has no defined result.  A single element is
    both minimum and maximum; otherwise the first two elements, compared
    with each other, give the first minimum and maximum. *)
Definition minmax_list (l : list T) : option (T * T) :=
  match l with
  | [] => None
  | [x] => Some (x, x)
  | x :: y :: l' =>
      Some (if y < x then minmax_from y x l' else minmax_from x y l')
  end.

Definition between (value border_1 border_2 : T) : bool :=
  let interval := minmax border_1 border_2 in
  if value < fst interval then false
  else if value > snd interval then false
  else true.

Definition overlap (interval_1 interval_2 : list T) : option bool :=
  match minmax_list interval_1, minmax_list interval_2 with
  | Some interval_1_minmax, Some interval_2_minmax =>
      Some (if snd interval_2_minmax < fst interval_1_minmax then false
            else if snd interval_1_minmax < fst interval_2_minmax then false
            else true)
  | _, _ => None
  end.
End MinMax.

(** ** Numeric helpers that compute *)

Section Helpers.
Context {T : Type} {S : Scalar T}.
Local Open Scope cpp_scope.

Definition constexpr_abs (value : T) : T :=
  if value < zero then - value else value.

Definition fraction_less_than_zero (nominator denominator : T) : bool :=
  if nominator == zero then false
  else if negb (Bool.eqb (nominator < zero) (denominator < zero)) then true
  else false.

Definition fraction_between_zero_and_one (nominator denominator : T) : bool :=
  if fraction_less_than_zero nominator denominator then false
  else if constexpr_abs nominator > constexpr_abs denominator then false
  else true.

Definition sign_square (x : T) : T :=
  if x < zero then - x * x else x * x.
End Helpers.

(** Sequencing of a routine after a call that may have no result. *)
Notation "'do' x <- c ; k" :=
  (match c with Some x => k | None => None end)
  (at level 10, x name, c at level 100, k at level 200).

(** ** Collision routines *)

Section Routines.
Context {T : Type} {S : Scalar T}.
Local Open Scope cpp_scope.

Definition collision_point_point (x1 y1 x2 y2 : T) : bool :=
  (x1 == x2) && (y1 == y2).

Definition collision_point_line (x1 y1 x2 y2 dx2 dy2 : T) : bool :=
  let dx12 := x1 - x2 in
  let dy12 := y1 - y2 in
  if dx12 * dy2 != dy12 * dx2 then false
  else
    let projection := dx12 * dx2 + dy12 * dy2 in
    if negb (between projection zero (dx2 * dx2 + dy2 * dy2)) then false
    else true.

Definition collision_point_circle (x1 y1 x2 y2 r2 : T) : bool :=
  let dx := x1 - x2 in
  let dy := y1 - y2 in
  if dx * dx + dy * dy > r2 * r2 then false else true.

Definition collision_point_box (x1 y1 x2 y2 w2 h2 : T) : bool :=
  if x1 < x2 then false
  else if y1 < y2 then false
  else if x2 + w2 < x1 then false
  else if y2 + h2 < y1 then false
  else true.

Definition collision_point_triangle (x1 y1 x2 y2 sxa2 sya2 sxb2 syb2 : T) : bool :=
  let dx12 := x1 - x2 in
  let dy12 := y1 - y2 in
  let nominator_u := dx12 * syb2 - dy12 * sxb2 in
  let denominator_u := sxa2 * syb2 - sxb2 * sya2 in
  if negb (fraction_between_zero_and_one nominator_u denominator_u) then false
  else
    let nominator_v := dx12 * sya2 - dy12 * sxa2 in
    let denominator_v := - denominator_u in
    if negb (fraction_between_zero_and_one nominator_v denominator_v) then false
    else
      let nominator_u_v := nominator_u - nominator_v in
      if negb (fraction_between_zero_and_one nominator_u_v denominator_u) then false
      else true.

Definition collision_line_line (x1 y1 dx1 dy1 x2 y2 dx2 dy2 : T) : bool :=
  let cross_term := dx2 * dy1 - dy2 * dx1 in
  (* the separating axis part, reached when the block above it does not return *)
  let separating_axes :=
    let y21 := y2 - y1 in
    let x21 := x2 - x1 in
    let projection_2_on_n1 := y21 * dx1 - x21 * dy1 in
    if Bool.eqb (projection_2_on_n1 < zero) (projection_2_on_n1 < cross_term)
    then false
    else
      let projection_1_on_n2 := x21 * dy2 - y21 * dx2 in
      if Bool.eqb (projection_1_on_n2 < zero) (projection_1_on_n2 < - cross_term)
      then false
      else true in
  if cross_term == zero then
    if collision_point_line x1 y1 x2 y2 dx2 dy2 then true
    else if collision_point_line x2 y2 x1 y1 dx1 dy1 then true
    else separating_axes
  else separating_axes.

Definition collision_line_circle (x1 y1 dx1 dy1 x2 y2 r2 : T) : option bool :=
  let x21 := x2 - x1 in
  let y21 := y2 - y1 in
  let r2_squared := r2 * r2 in
  let proj_circle_normal := y21 * dx1 - x21 * dy1 in
  let proj_circle_normal_max := r2_squared * (dx1 * dx1 + dy1 * dy1) in
  if negb (between (sign_square proj_circle_normal)
                   (- proj_circle_normal_max) proj_circle_normal_max)
  then Some false
  else
    let x2d1 := x21 - dx1 in
    let y2d1 := y21 - dy1 in
    let distance_1_2 := x21 * x21 + y21 * y21 in
    let distance_d_2 := x2d1 * x2d1 + y2d1 * y2d1 in
    if distance_1_2 < distance_d_2 then
      let p1 := sign_square distance_1_2 in
      let p2 := sign_square (distance_1_2 - dx1 * x21 - dy1 * y21) in
      let proj_r2_squared := r2_squared * (x21 * x21 + y21 * y21) in
      do o <- overlap [p1; p2] [- proj_r2_squared; proj_r2_squared];
      if negb o then Some false else Some true
    else
      let p1 := sign_square distance_d_2 in
      let p2 := sign_square (distance_1_2 - dx1 * x21 - dy1 * y21) in
      let proj_r2_squared := r2_squared * (x2d1 * x2d1 + y2d1 * y2d1) in
      do o <- overlap [p1; p2] [- proj_r2_squared; proj_r2_squared];
      if negb o then Some false else Some true.

Definition collision_line_box (x1 y1 dx1 dy1 x2 y2 w2 h2 : T) : bool :=
  if collision_point_box x1 y1 x2 y2 w2 h2 then true
  else if collision_point_box (x1 + dx1) (y1 + dy1) x2 y2 w2 h2 then true
  else
    let nominator_x_neg := x2 - x1 in
    let nominator_x_pos := x2 + w2 - x1 in
    let nominator_y_neg := y2 - y1 in
    let nominator_y_pos := y2 + h2 - y1 in
    let nom_x_neg_dy := nominator_x_neg * dy1 in
    let nom_x_pos_dy := nominator_x_pos * dy1 in
    let nom_y_neg_dx := nominator_y_neg * dx1 in
    let nom_y_pos_dx := nominator_y_pos * dx1 in
    if (nom_x_neg_dy >= nom_y_neg_dx) && (nom_x_neg_dy <= nom_y_pos_dx)
       && fraction_between_zero_and_one nominator_x_neg dx1
    then true
    else if (nom_x_pos_dy >= nom_y_neg_dx) && (nom_x_pos_dy <= nom_y_pos_dx)
            && fraction_between_zero_and_one nominator_x_pos dx1
    then true
    else if (nom_y_neg_dx >= nom_x_neg_dy) && (nom_y_neg_dx <= nom_x_pos_dy)
            && fraction_between_zero_and_one nominator_y_neg dy1
    then true
    else if (nom_y_pos_dx >= nom_x_neg_dy) && (nom_y_pos_dx <= nom_x_pos_dy)
            && fraction_between_zero_and_one nominator_y_pos dy1
    then true
    else false.

Definition collision_line_triangle
    (x1 y1 dx1 dy1 x2 y2 sxa2 sya2 sxb2 syb2 : T) : option bool :=
  let x21 := x2 - x1 in
  let y21 := y2 - y1 in
  let xa1 := x21 + sxa2 in
  let ya1 := y21 + sya2 in
  let xb1 := x21 + sxb2 in
  let yb1 := y21 + syb2 in
  let projection_2_on_n1 := y21 * dx1 - x21 * dy1 in
  let projection_a_on_n1 := ya1 * dx1 - xa1 * dy1 in
  let projection_b_on_n1 := yb1 * dx1 - xb1 * dy1 in
  let p2_n1_negative := Z.b2z (projection_2_on_n1 < zero) in
  let pa_n1_negative := Z.b2z (projection_a_on_n1 < zero) in
  let pb_n1_negative := Z.b2z (projection_b_on_n1 < zero) in
  if (p2_n1_negative + pa_n1_negative + pb_n1_negative =? 3)%Z then Some false
  else
    let projection_1_on_na := x21 * sya2 - y21 * sxa2 in
    let projection_d_on_na := dy1 * sxa2 - dx1 * sya2 in
    let projection_b_on_na := syb2 * sxa2 - sxb2 * sya2 in
    do oa <- overlap [projection_1_on_na; projection_1_on_na + projection_d_on_na]
                     [zero; projection_b_on_na];
    if negb oa then Some false
    else
      let projection_1_on_nb := x21 * syb2 - y21 * sxb2 in
      let projection_d_on_nb := dy1 * sxb2 - dx1 * syb2 in
      let projection_a_on_nb := - projection_b_on_na in
      do ob <- overlap [projection_1_on_nb; projection_1_on_nb + projection_d_on_nb]
                       [zero; projection_a_on_nb];
      if negb ob then Some false
      else
        let sxc2 := sxb2 - sxa2 in
        let syc2 := syb2 - sya2 in
        let projection_1_on_nc := xa1 * syc2 - ya1 * sxc2 in
        let projection_d_on_nc := dy1 * sxc2 - dx1 * syc2 in
        let projection_2_on_nc := projection_b_on_na in
        do oc <- overlap [projection_1_on_nc; projection_1_on_nc + projection_d_on_nc]
                         [zero; projection_2_on_nc];
        if negb oc then Some false else Some true.

Definition collision_circle_circle (x1 y1 r1 x2 y2 r2 : T) : bool :=
  let dx := x1 - x2 in
  let dy := y1 - y2 in
  let combined_radius := r1 + r2 in
  if dx * dx + dy * dy > combined_radius * combined_radius then false else true.

Definition collision_circle_box (x1 y1 r1 x2 y2 w2 h2 : T) : option bool :=
  let dxp := x2 + w2 - x1 in
  let dyp := y2 + h2 - y1 in
  let dxm := x2 - x1 in
  let dym := y2 - y1 in
  do ox <- overlap [dxm; dxp] [- r1; r1];
  if negb ox then Some false
  else
    do oy <- overlap [dym; dyp] [- r1; r1];
    if negb oy then Some false
    else
      let dxp2 := dxp * dxp in
      let dxm2 := dxm * dxm in
      let dyp2 := dyp * dyp in
      let dym2 := dym * dym in
      let dxp2yp2 := dxp2 + dyp2 in
      let dyp2xm2 := dyp2 + dxm2 in
      let dxm2ym2 := dxm2 + dym2 in
      let dym2xp2 := dym2 + dxp2 in
      (* the three mutable locals, threaded through the three updates *)
      let '(min_dist, vx, vy) := (dxp2yp2, dxp, dyp) in
      let '(min_dist, vx, vy) :=
        if dyp2xm2 < min_dist then (dyp2xm2, dxm, dyp) else (min_dist, vx, vy) in
      let '(min_dist, vx, vy) :=
        if dxm2ym2 < min_dist then (dxm2ym2, dxm, dym) else (min_dist, vx, vy) in
      let '(min_dist, vx, vy) :=
        if dym2xp2 < min_dist then (dym2xp2, dxp, dym) else (min_dist, vx, vy) in
      let proj_v_pp := sign_square (dxp * vx + dyp * vy) in
      let proj_v_pm := sign_square (dxp * vx + dym * vy) in
      let proj_v_mp := sign_square (dxm * vx + dyp * vy) in
      let proj_v_mm := sign_square (dxm * vx + dym * vy) in
      let proj_r1_squared := r1 * r1 * (vx * vx + vy * vy) in
      do ov <- overlap [proj_v_pp; proj_v_pm; proj_v_mp; proj_v_mm]
                       [- proj_r1_squared; proj_r1_squared];
      if negb ov then Some false else Some true.

Definition collision_circle_triangle
    (x1 y1 r1 x2 y2 sxa2 sya2 sxb2 syb2 : T) : option bool :=
  let dx := x1 - x2 in
  let dy := y1 - y2 in
  let r1_squared := r1 * r1 in
  let cross_term := sxa2 * syb2 - sxb2 * sya2 in
  let proj_x1_a := dy * sxa2 - dx * sya2 in
  let proj_r1_a_squared := r1_squared * (sxa2 * sxa2 + sya2 * sya2) in
  do oa <- overlap [sign_square (- proj_x1_a); sign_square (cross_term - proj_x1_a)]
                   [- proj_r1_a_squared; proj_r1_a_squared];
  if negb oa then Some false
  else
    let proj_x1_b := dy * sxb2 - dx * syb2 in
    let proj_r1_b_squared := r1_squared * (sxb2 * sxb2 + syb2 * syb2) in
    do ob <- overlap [sign_square (- proj_x1_b); sign_square (- cross_term - proj_x1_b)]
                     [- proj_r1_b_squared; proj_r1_b_squared];
    if negb ob then Some false
    else
      let sxc2 := sxb2 - sxa2 in
      let syc2 := syb2 - sya2 in
      let proj_x1_c := dy * (sxb2 - sxa2) - dx * (syb2 - sya2) in
      let proj_r1_c_squared := r1_squared * (sxc2 * sxc2 + syc2 * syc2) in
      do oc <- overlap [sign_square (- proj_x1_c); sign_square proj_x1_c]
                       [- proj_r1_c_squared; proj_r1_c_squared];
      if negb oc then Some false
      else
        let '(min_dist, vx, vy) := (dx * dx + dy * dy, - dx, - dy) in
        let dxa := dx - sxa2 in
        let dya := dy - sya2 in
        let dxb := dx - sxb2 in
        let dyb := dy - syb2 in
        let da_norm := dxa * dxa + dya * dya in
        let db_norm := dxb * dxb + dyb * dyb in
        let '(min_dist, vx, vy) :=
          if da_norm < min_dist then (da_norm, - dxa, - dya) else (min_dist, vx, vy) in
        let '(min_dist, vx, vy) :=
          if db_norm < min_dist then (db_norm, - dxb, - dyb) else (min_dist, vx, vy) in
        let proj_2_0_v := sign_square (- dx * vx - dy * vy) in
        let proj_2_a_v := sign_square (- dxa * vx - dya * vy) in
        let proj_2_b_v := sign_square (- dxb * vx - dyb * vy) in
        let proj_r_v_squared := r1_squared * min_dist in
        do ov <- overlap [proj_2_0_v; proj_2_a_v; proj_2_b_v]
                         [- proj_r_v_squared; proj_r_v_squared];
        if negb ov then Some false else Some true.

Definition collision_box_box (x1 y1 w1 h1 x2 y2 w2 h2 : T) : bool :=
  if x1 + w1 < x2 then false
  else if y1 + h1 < y2 then false
  else if x2 + w2 < x1 then false
  else if y2 + h2 < y1 then false
  else true.
End Routines.

(** ** IEEE 754 binary32, the C++ [float] *)

Definition prec32 : Z := 24.
Definition emax32 : Z := 128.

(** The values of a [float].  A [spec_float] is a value of the format when
    its significand and exponent fit it ([is_float32]). *)
Definition float32 : Type := spec_float.

Definition is_float32 (x : float32) : bool := valid_binary prec32 emax32 x.

#[global] Instance float32_scalar : Scalar float32 := {|
  scalar_less := SFltb;
  zero := S754_zero false;
  eqb := SFeqb;
  leb := SFleb;
  opp := SFopp;
  add := SFadd prec32 emax32;
  sub := SFsub prec32 emax32;
  mul := SFmul prec32 emax32
|}.

(** Conversions used to write down sample values: an integer, and a decimal
    literal [n / d] rounded to the nearest [float] (both operands of the
    quotient are exact, so its correctly rounded value is the literal's). *)
Definition of_Z (n : Z) : float32 := binary_normalize prec32 emax32 n 0 false.

Definition literal (n d : Z) : float32 := SFdiv prec32 emax32 (of_Z n) (of_Z d).

(** The other instantiations the header's assertions use: [double]
    (binary64) for the fraction helpers and [int] for [overlap]. *)
Definition float64 : Type := spec_float.

Definition float64_scalar : Scalar float64 := {|
  scalar_less := SFltb;
  zero := S754_zero false;
  eqb := SFeqb;
  leb := SFleb;
  opp := SFopp;
  add := SFadd 53 1024;
  sub := SFsub 53 1024;
  mul := SFmul 53 1024
|}.

Definition double_of_Z (n : Z) : float64 := binary_normalize 53 1024 n 0 false.

Definition int_less : Less Z := Z.ltb.

(** ** Notions used in the statements *)

(** Two floats that compare alike everywhere: the same value, or two zeros
    (of any signs). *)
Definition zeq (x y : spec_float) : Prop :=
  match x, y with
  | S754_zero _, S754_zero _ => True
  | _, _ => x = y
  end.

Definition is_nan (x : spec_float) : bool :=
  match x with S754_nan => true | _ => false end.

(** Zeros and finite non-zero values: neither an infinity nor NaN. *)
Definition is_finite (x : spec_float) : bool :=
  match x with S754_zero _ | S754_finite _ _ _ => true | _ => false end.

Definition is_zero (x : spec_float) : bool :=
  match x with S754_zero _ => true | _ => false end.

(** The number a float denotes, as an exact rational: [(-1)^s * m * 2^e].
    (Infinities and NaN denote no number; the zero is only a filler.) *)
Definition SF2Q (x : spec_float) : Q :=
  match x with
  | S754_finite s m e => (inject_Z (cond_Zopp s (Z.pos m)) * Qpower 2 e)%Q
  | _ => 0%Q
  end.

(** The number a finite float denotes, in units of [2 ^ emin], the spacing
    of the smallest floats of the format: an integer for every float of the
    format.  Infinities and NaN denote no number. *)
Definition scaled (prec emax : Z) (x : spec_float) : Z :=
  match x with
  | S754_finite s m e => cond_Zopp s (Z.pos m * 2 ^ (e - emin prec emax))
  | _ => 0
  end.

(** The state of [shr] after shifting [m0] right by [k] bits: the quotient,
    and round and sticky bits that are both clear exactly when nothing has
    been shifted out. *)
Definition shr_state (m0 k : Z) (mrs : shr_record) : Prop :=
  (0 <= k)%Z
  /\ shr_m mrs = (m0 / 2 ^ k)%Z
  /\ (shr_r mrs || shr_s mrs = false <-> (m0 mod 2 ^ k)%Z = 0%Z).

(** The number [m * 2 ^ e] handed to [binary_round], in units of
    [2 ^ emin], and the spacing of the floats of the format around it. *)
Definition round_value (prec emax : Z) (m : positive) (e : Z) : Z :=
  Z.pos m * 2 ^ (e - emin prec emax).

Definition round_grid (prec emax : Z) (m : positive) (e : Z) : Z :=
  2 ^ (fexp prec emax (Z.pos (digits2_pos m) + e) - emin prec emax).

(** Equality without tolerance: two floats that are not NaN and are the same
    value (zeros of either sign being one value). *)
Definition same_value (x y : spec_float) : Prop :=
  is_nan x = false /\ is_nan y = false /\ zeq x y.

(** The place of a float in the order of the floats that are not NaN: its
    sign class first, then exponent and mantissa (mirrored for negative
    floats), compared lexicographically. *)
Definition ord (x : spec_float) : Z * Z * Z :=
  match x with
  | S754_zero _ => (0, 0, 0)
  | S754_nan => (0, 0, 0)
  | S754_infinity false => (2, 0, 0)
  | S754_infinity true => (-2, 0, 0)
  | S754_finite false m e => (1, e, Z.pos m)
  | S754_finite true m e => (-1, - e, Z.neg m)
  end%Z.

Definition lex_lt (a b : Z * Z * Z) : Prop :=
  (fst (fst a) < fst (fst b)
   \/ (fst (fst a) = fst (fst b)
       /\ (snd (fst a) < snd (fst b)
           \/ (snd (fst a) = snd (fst b) /\ snd a < snd b))))%Z.

(** Floats below zero: what [x < 0.0f] tests. *)
Definition is_negative (x : spec_float) : bool :=
  match x with
  | S754_finite true _ _ | S754_infinity true => true
  | _ => false
  end.

(** Floats above zero. *)
Definition is_positive (x : spec_float) : bool :=
  match x with
  | S754_finite false _ _ | S754_infinity false => true
  | _ => false
  end.

Definition nan_free (l : list spec_float) : Prop :=
  Forall (fun x => is_nan x = false) l.

Ltac float_cases x := destruct x as [[]|[]| |[] ? ?].

Ltac zeq_inv :=
  repeat match goal with
  | H : zeq ?x ?y |- _ =>
      destruct x, y; simpl in H; try discriminate H;
      inversion H; clear H; subst
  end.

(** Reads the operators at [float32] as the IEEE operations. *)
Ltac f32 :=
  cbv [ltb eqb leb opp add sub mul zero float32_scalar scalar_less] in *.

(** ** The header's compile time assertions

    Every [static_assert] of the header, evaluated in the embedding. *)

Module StaticAssertions.
Local Notation "' n" := (of_Z n) (at level 1, n at level 0, format "' n").
Local Notation "n ./ d" := (literal n d) (at level 1, d at level 0).
Local Notation "'dbl'" := double_of_Z.

Example assert_fraction_less_than_zero :
  map (fun nd => fraction_less_than_zero (S := float64_scalar) (fst nd) (snd nd))
      [(dbl (-1), dbl 3); (dbl 1, dbl (-3)); (dbl 0, dbl 3); (dbl 0, dbl (-3));
       (dbl 1, dbl 3); (dbl (-1), dbl (-3))]
  = [true; true; false; false; false; false].
Proof. vm_compute. reflexivity. Qed.

Example assert_fraction_between_zero_and_one :
  map (fun nd => fraction_between_zero_and_one (S := float64_scalar) (fst nd) (snd nd))
      [(dbl (-1), dbl 3); (dbl 1, dbl (-3)); (dbl 0, dbl 3); (dbl 0, dbl (-3));
       (dbl 1, dbl 3); (dbl (-1), dbl (-3)); (dbl 3, dbl 1); (dbl (-3), dbl 1);
       (dbl (-3), dbl (-1))]
  = [false; false; true; true; true; true; false; false; false].
Proof. vm_compute. reflexivity. Qed.

Example assert_overlap :
  map (fun ab => overlap (L := int_less) (fst ab) (snd ab))
      [([1; 3; 4], [2; 1]); ([1; 3; 4], [6; 5]); ([-1; 6], [-3]); ([-1; 6], [3]);
       ([-1; 6], [-1]); ([-1; 6], [6])]%Z
  = [Some true; Some false; Some false; Some true; Some true; Some true].
Proof. vm_compute. reflexivity. Qed.

Example assert_point_point :
  collision_point_point '1 '2 '3 '4 = false
  /\ collision_point_point '1 '9 '1 '9 = true.
Proof. vm_compute. auto. Qed.

Example assert_point_line :
  [collision_point_line 2./10 2./10 '0 '0 '1 '1;
   collision_point_line 2./10 3./10 '0 '0 '1 '1;
   collision_point_line '1 '0 '0 '0 '1 '0;
   collision_point_line '1 '0 '1 '0 '1 '0;
   collision_point_line '1 '0 11./10 '0 '1 '0]
  = [true; false; true; true; false].
Proof. vm_compute. reflexivity. Qed.

Example assert_point_circle : collision_point_circle '2 '3 '4 '5 '3 = true.
Proof. vm_compute. reflexivity. Qed.

Example assert_point_box : collision_point_box '(-3) '(-5) '(-7) '(-8) '20 '18 = true.
Proof. vm_compute. reflexivity. Qed.

Example assert_point_triangle :
  collision_point_triangle '0 '0 '0 2./10 '3 '(-1) '(-3) '(-1) = true
  /\ collision_point_triangle '0 '0 '0 2./10 '3 '1 '(-3) '1 = false.
Proof. vm_compute. auto. Qed.

Example assert_line_line :
  [collision_line_line '0 '0 '1 '1 '0 '1 '1 '(-1);
   collision_line_line '0 '0 '1 '0 11./10 '(-1) '0 '2;
   collision_line_line '0 '0 '1 '0 9./10 '(-1) '0 '2;
   collision_line_line '0 '0 '1 '1 '0 1./10 '1 '1;
   collision_line_line '0 '0 '1 '0 '1 '0 '1 '0;
   collision_line_line '0 '0 '1 '0 11./10 '0 '1 '0;
   collision_line_line 11./10 '0 '1 '0 '0 '0 '1 '0]
  = [true; false; true; false; true; false; false].
Proof. vm_compute. reflexivity. Qed.

Example assert_line_circle :
  [collision_line_circle '1 '1 '8 '8 '(-3) '(-3) '100;
   collision_line_circle '1 '1 '8 '8 '4 '4 1./10;
   collision_line_circle '1 '1 '8 '8 '10 '10 14./10;
   collision_line_circle '1 '1 '8 '8 '10 '10 15./10]
  = [Some true; Some true; Some false; Some true].
Proof. vm_compute. reflexivity. Qed.

Example assert_line_box :
  [collision_line_box '3 '2 '8 '11 '0 '1 '10 '10;
   collision_line_box '11 '0 '11 '13 '0 '1 '10 '10;
   collision_line_box '1 '1 '7 '7 '2 '2 '4 '4]
  = [true; false; true].
Proof. vm_compute. reflexivity. Qed.

Example assert_line_triangle :
  [collision_line_triangle '3 '0 '0 '2 '2 '1 '(-1) '3 '2 '1;
   collision_line_triangle '2 '4 '2 '0 '2 '1 '(-1) '3 '2 '1;
   collision_line_triangle '2 '1 '(-1) '3 '2 '1 '(-1) '3 '2 '1;
   collision_line_triangle '2 '1 '2 '1 '2 '1 '(-1) '3 '2 '1]
  = [Some true; Some false; Some true; Some true].
Proof. vm_compute. reflexivity. Qed.

Example assert_circle_box :
  [collision_circle_box '1 '(-3) '4 '(-5) '(-4) '10 '8;
   collision_circle_box '1 '(-3) '1 '(-5) '(-2) '10 '4;
   collision_circle_box '1 '(-3) 9./10 '(-5) '(-2) '10 '4;
   collision_circle_box '2 '1 1./10 '(-2) '(-2) '4 '4;
   collision_circle_box '3 '3 '1 '(-2) '(-2) '4 '4;
   collision_circle_box '3 '3 15./10 '(-2) '(-2) '4 '4;
   collision_circle_box '3 '3 '2 '(-2) '(-2) '4 '4]
  = [Some true; Some true; Some false; Some true; Some false; Some true; Some true].
Proof. vm_compute. reflexivity. Qed.

Example assert_circle_triangle :
  [collision_circle_triangle '5 '5 '3 '3 '2 '(-1) '(-5) '(-5) '(-1);
   collision_circle_triangle '0 '0 '1 '3 '2 '(-1) '(-5) '(-5) '(-1);
   collision_circle_triangle '5 '5 '4 '3 '2 '(-1) '(-5) '(-5) '(-1)]
  = [Some false; Some true; Some true].
Proof. vm_compute. reflexivity. Qed.

Example assert_box_box :
  collision_box_box '(-2) '(-2) '6 '8 25./10 55./10 '4 '4 = true
  /\ collision_box_box '(-2) '(-2) '6 '8 31./10 61./10 28./10 28./10 = false.
Proof. vm_compute. auto. Qed.
End StaticAssertions.

(** ** Facts about the IEEE operations *)

#[global] Instance zeq_equiv : Equivalence zeq.
Proof.
  split.
  - intros []; simpl; auto.
  - intros [] []; simpl; intros; try congruence; auto.
  - intros [] [] []; simpl; intros; try congruence; auto.
Qed.

Lemma eq_zeq (x y : spec_float) : x = y -> zeq x y.
Proof. intros ->; reflexivity. Qed.

#[global] Instance SFcompare_zeq : Proper (zeq ==> zeq ==> eq) SFcompare.
Proof. intros x x' Hx y y' Hy; zeq_inv; reflexivity. Qed.

#[global] Instance SFltb_zeq : Proper (zeq ==> zeq ==> eq) SFltb.
Proof. intros x x' Hx y y' Hy; unfold SFltb; now rewrite Hx, Hy. Qed.

#[global] Instance SFeqb_zeq : Proper (zeq ==> zeq ==> eq) SFeqb.
Proof. intros x x' Hx y y' Hy; unfold SFeqb; now rewrite Hx, Hy. Qed.

#[global] Instance SFleb_zeq : Proper (zeq ==> zeq ==> eq) SFleb.
Proof. intros x x' Hx y y' Hy; unfold SFleb; now rewrite Hx, Hy. Qed.

#[global] Instance SFopp_zeq : Proper (zeq ==> zeq) SFopp.
Proof. intros x x' Hx; zeq_inv; simpl; auto. Qed.

Lemma SFopp_involutive (x : spec_float) : SFopp (SFopp x) = x.
Proof. destruct x; simpl; now rewrite ?negb_involutive. Qed.

Lemma SFeqb_opp_zero (x : spec_float) (s : bool) :
  SFeqb (SFopp x) (S754_zero s) = SFeqb x (S754_zero s).
Proof. float_cases x; reflexivity. Qed.

Section SFfacts.
Variables prec emax : Z.

Local Notation "'fmul'" := (SFmul prec emax).
Local Notation "'fadd'" := (SFadd prec emax).
Local Notation "'fsub'" := (SFsub prec emax).

Lemma binary_round_aux_opp (s : bool) (m e : Z) (l : location) :
  SFopp (binary_round_aux prec emax s m e l)
  = binary_round_aux prec emax (negb s) m e l.
Proof.
  unfold binary_round_aux.
  destruct (shr_fexp prec emax m e l) as [mrs' e'].
  destruct (shr_fexp prec emax _ e' loc_Exact) as [mrs'' e''].
  destruct (shr_m mrs''); simpl; auto.
  destruct (e'' <=? emax - prec)%Z; reflexivity.
Qed.

Lemma binary_round_opp (s : bool) (m : positive) (e : Z) :
  SFopp (binary_round prec emax s m e) = binary_round prec emax (negb s) m e.
Proof.
  unfold binary_round.
  destruct (shl_align m e _) as [mz ez]. apply binary_round_aux_opp.
Qed.

Lemma binary_normalize_opp (m e : Z) :
  zeq (binary_normalize prec emax (- m) e false)
      (SFopp (binary_normalize prec emax m e false)).
Proof.
  destruct m as [|m|m]; simpl.
  - exact I.
  - rewrite binary_round_opp. reflexivity.
  - rewrite binary_round_opp. reflexivity.
Qed.

#[global] Instance SFmul_zeq : Proper (zeq ==> zeq ==> zeq) fmul.
Proof. intros x x' Hx y y' Hy; zeq_inv; simpl; auto; reflexivity. Qed.

#[global] Instance SFadd_zeq : Proper (zeq ==> zeq ==> zeq) fadd.
Proof.
  intros x x' Hx y y' Hy; zeq_inv; simpl; auto; try reflexivity;
    repeat match goal with |- context [match ?b with _ => _ end] => destruct b end;
    simpl; auto.
Qed.

#[global] Instance SFsub_zeq : Proper (zeq ==> zeq ==> zeq) fsub.
Proof.
  intros x x' Hx y y' Hy; zeq_inv; simpl; auto; try reflexivity;
    repeat match goal with |- context [match ?b with _ => _ end] => destruct b end;
    simpl; auto.
Qed.

Lemma SFmul_comm (x y : spec_float) : fmul x y = fmul y x.
Proof.
  destruct x as [sx|sx| |sx mx ex], y as [sy|sy| |sy my ey]; simpl;
    rewrite ?(xorb_comm sx sy); auto.
  now rewrite Pos.mul_comm, Z.add_comm.
Qed.

Lemma SFadd_comm (x y : spec_float) : fadd x y = fadd y x.
Proof.
  destruct x as [sx|sx| |sx mx ex], y as [sy|sy| |sy my ey]; simpl; auto;
    try (destruct sx, sy; reflexivity).
  now rewrite Z.min_comm, Z.add_comm.
Qed.

Lemma SFmul_opp_l (x y : spec_float) : fmul (SFopp x) y = SFopp (fmul x y).
Proof.
  destruct x as [sx|sx| |sx mx ex], y as [sy|sy| |sy my ey]; simpl; auto;
    rewrite ?binary_round_aux_opp; now destruct sx, sy.
Qed.

Lemma SFmul_opp_opp (x y : spec_float) : fmul (SFopp x) (SFopp y) = fmul x y.
Proof.
  now rewrite SFmul_opp_l, (SFmul_comm x), SFmul_opp_l, SFopp_involutive, SFmul_comm.
Qed.

Lemma cond_Zopp_negb (s : bool) (m : Z) : cond_Zopp (negb s) m = (- cond_Zopp s m)%Z.
Proof. destruct s; simpl; lia. Qed.

(** [y - x] is the opposite of [x - y]: rounding to nearest is symmetric. *)
Lemma SFsub_antisym (x y : spec_float) : zeq (fsub y x) (SFopp (fsub x y)).
Proof.
  destruct x as [sx|sx| |sx mx ex], y as [sy|sy| |sy my ey]; simpl; auto;
    try (destruct sx, sy; simpl; auto; reflexivity); try reflexivity.
  rewrite <- binary_normalize_opp, (Z.min_comm ey ex).
  apply eq_zeq; f_equal; lia.
Qed.

Lemma SFsub_opp_opp (x y : spec_float) : zeq (fsub (SFopp x) (SFopp y)) (fsub y x).
Proof.
  destruct x as [sx|sx| |sx mx ex], y as [sy|sy| |sy my ey]; simpl; auto;
    try (destruct sx, sy; simpl; auto; reflexivity); try reflexivity.
  rewrite !cond_Zopp_negb, (Z.min_comm ey ex).
  apply eq_zeq; f_equal; lia.
Qed.

Lemma SFadd_zero_r (x : spec_float) (s : bool) : zeq (fadd x (S754_zero s)) x.
Proof. float_cases x; destruct s; simpl; auto. Qed.
End SFfacts.

(** ** The order of floats and the order of the numbers they denote *)

Section FloatOrder.
Variables prec emax : Z.
Hypothesis prec_gt_0 : (0 < prec)%Z.

Local Open Scope Z_scope.

Lemma digits2_pos_bounds (m : positive) :
  2 ^ (Z.pos (digits2_pos m) - 1) <= Z.pos m < 2 ^ Z.pos (digits2_pos m).
Proof.
  induction m as [p IH|p IH|]; simpl digits2_pos.
  - rewrite Pos2Z.inj_succ, (Pos2Z.inj_xI p).
    replace (Z.succ (Z.pos (digits2_pos p)) - 1)
      with (Z.succ (Z.pos (digits2_pos p) - 1)) by lia.
    rewrite !Z.pow_succ_r by lia. lia.
  - rewrite Pos2Z.inj_succ, (Pos2Z.inj_xO p).
    replace (Z.succ (Z.pos (digits2_pos p)) - 1)
      with (Z.succ (Z.pos (digits2_pos p) - 1)) by lia.
    rewrite !Z.pow_succ_r by lia. lia.
  - simpl. lia.
Qed.

Lemma canonical_mantissa_inv (m : positive) (e : Z) :
  canonical_mantissa prec emax m e = true ->
  emin prec emax <= e
  /\ Z.pos (digits2_pos m) <= prec
  /\ (emin prec emax < e -> Z.pos (digits2_pos m) = prec).
Proof.
  unfold canonical_mantissa, fexp. rewrite Z.eqb_eq. lia.
Qed.

Lemma bounded_inv (m : positive) (e : Z) :
  bounded prec emax m e = true ->
  canonical_mantissa prec emax m e = true /\ e <= emax - prec.
Proof. unfold bounded. rewrite andb_true_iff, Z.leb_le. tauto. Qed.

(** Among canonical significands a larger exponent is a larger number. *)
Lemma canonical_exponent_lt (m1 m2 : positive) (e1 e2 : Z) :
  canonical_mantissa prec emax m1 e1 = true ->
  canonical_mantissa prec emax m2 e2 = true ->
  e1 < e2 ->
  Z.pos m1 * 2 ^ (e1 - emin prec emax) < Z.pos m2 * 2 ^ (e2 - emin prec emax).
Proof.
  intros H1 H2 Hlt.
  apply canonical_mantissa_inv in H1 as (Hmin1 & Hd1 & _).
  apply canonical_mantissa_inv in H2 as (Hmin2 & _ & Hd2).
  specialize (Hd2 ltac:(lia)).
  destruct (digits2_pos_bounds m1) as [_ Hm1].
  destruct (digits2_pos_bounds m2) as [Hm2 _].
  rewrite Hd2 in Hm2.
  assert (Hpow1 : 2 ^ Z.pos (digits2_pos m1) <= 2 ^ prec)
    by (apply Z.pow_le_mono_r; lia).
  replace (e2 - emin prec emax) with ((e2 - e1 - 1) + 1 + (e1 - emin prec emax)) by lia.
  rewrite !Z.pow_add_r by lia.
  replace prec with (prec - 1 + 1) in Hpow1 by lia.
  rewrite Z.pow_add_r in Hpow1 by lia.
  assert (HK : 0 < 2 ^ (e1 - emin prec emax)) by (apply Z.pow_pos_nonneg; lia).
  assert (HA : 0 < 2 ^ (e2 - e1 - 1)) by (apply Z.pow_pos_nonneg; lia).
  change (2 ^ 1) with 2 in *.
  rewrite Z.mul_assoc. apply Z.mul_lt_mono_pos_r; [exact HK|].
  assert (Hstep : Z.pos m2 * 2 <= Z.pos m2 * (2 ^ (e2 - e1 - 1) * 2)) by nia.
  lia.
Qed.

Lemma scaled_magnitude_pos (m : positive) (e : Z) :
  emin prec emax <= e -> 0 < Z.pos m * 2 ^ (e - emin prec emax).
Proof.
  intros H. apply Z.mul_pos_pos; [lia | apply Z.pow_pos_nonneg; lia].
Qed.

Lemma canonical_compare (m1 m2 : positive) (e1 e2 : Z) :
  canonical_mantissa prec emax m1 e1 = true ->
  canonical_mantissa prec emax m2 e2 = true ->
  match e1 ?= e2 with
  | Lt => Lt
  | Gt => Gt
  | Eq => Pos.compare_cont Eq m1 m2
  end
  = (Z.pos m1 * 2 ^ (e1 - emin prec emax) ?= Z.pos m2 * 2 ^ (e2 - emin prec emax)).
Proof.
  intros H1 H2. symmetry.
  destruct (Z.compare_spec e1 e2) as [He|He|He].
  - subst e2. rewrite Pos.compare_cont_spec. unfold Pos.switch_Eq.
    apply canonical_mantissa_inv in H1 as (Hmin & _).
    assert (HK : 0 < 2 ^ (e1 - emin prec emax)) by (apply Z.pow_pos_nonneg; lia).
    destruct (Pos.compare_spec m1 m2) as [Hm|Hm|Hm].
    + subst m2. apply Z.compare_refl.
    + apply Z.compare_lt_iff, Z.mul_lt_mono_pos_r; lia.
    + apply Z.compare_gt_iff, Z.mul_lt_mono_pos_r; lia.
  - apply Z.compare_lt_iff. now apply canonical_exponent_lt.
  - apply Z.compare_gt_iff. now apply canonical_exponent_lt.
Qed.

(** On the floats of the format that are not infinite or NaN, [SFcompare]
    is the comparison of the numbers denoted, here scaled to integers. *)
Lemma SFcompare_scaled (x y : spec_float) :
  valid_binary prec emax x = true -> valid_binary prec emax y = true ->
  is_finite x = true -> is_finite y = true ->
  SFcompare x y = Some (scaled prec emax x ?= scaled prec emax y).
Proof.
  destruct x as [sx|sx| |sx mx ex], y as [sy|sy| |sy my ey];
    try discriminate; simpl valid_binary; intros Vx Vy _ _.
  - reflexivity.
  - apply bounded_inv in Vy as [Cy _].
    pose proof (scaled_magnitude_pos my ey (proj1 (canonical_mantissa_inv _ _ Cy))).
    destruct sy; cbn [SFcompare scaled cond_Zopp]; f_equal; symmetry;
      [apply Z.compare_gt_iff | apply Z.compare_lt_iff]; lia.
  - apply bounded_inv in Vx as [Cx _].
    pose proof (scaled_magnitude_pos mx ex (proj1 (canonical_mantissa_inv _ _ Cx))).
    destruct sx; cbn [SFcompare scaled cond_Zopp]; f_equal; symmetry;
      [apply Z.compare_lt_iff | apply Z.compare_gt_iff]; lia.
  - apply bounded_inv in Vx as [Cx _]. apply bounded_inv in Vy as [Cy _].
    pose proof (scaled_magnitude_pos mx ex (proj1 (canonical_mantissa_inv _ _ Cx))).
    pose proof (scaled_magnitude_pos my ey (proj1 (canonical_mantissa_inv _ _ Cy))).
    pose proof (canonical_compare _ _ _ _ Cx Cy) as Hc.
    destruct sx, sy; cbn [SFcompare scaled cond_Zopp]; f_equal.
    + rewrite Z.compare_opp,
        (Z.compare_antisym (Z.pos mx * 2 ^ (ex - emin prec emax))), <- Hc.
      destruct (ex ?= ey); reflexivity.
    + symmetry. apply Z.compare_lt_iff. lia.
    + symmetry. apply Z.compare_gt_iff. lia.
    + exact Hc.
Qed.

Lemma SFltb_scaled (x y : spec_float) :
  valid_binary prec emax x = true -> valid_binary prec emax y = true ->
  is_finite x = true -> is_finite y = true ->
  SFltb x y = (scaled prec emax x <? scaled prec emax y).
Proof.
  intros Vx Vy Fx Fy. unfold SFltb, Z.ltb.
  now rewrite (SFcompare_scaled x y Vx Vy Fx Fy).
Qed.

Lemma SFeqb_scaled (x y : spec_float) :
  valid_binary prec emax x = true -> valid_binary prec emax y = true ->
  is_finite x = true -> is_finite y = true ->
  SFeqb x y = (scaled prec emax x =? scaled prec emax y).
Proof.
  intros Vx Vy Fx Fy. unfold SFeqb.
  now rewrite (SFcompare_scaled x y Vx Vy Fx Fy), Z.eqb_compare.
Qed.

Lemma SF2Q_scaled (x : spec_float) :
  valid_binary prec emax x = true -> is_finite x = true ->
  (SF2Q x == inject_Z (scaled prec emax x) * Qpower 2 (emin prec emax))%Q.
Proof.
  destruct x as [sx|sx| |s m e]; try discriminate; intros V _.
  - symmetry. apply Qmult_0_l.
  - apply bounded_inv in V as [C _].
    apply canonical_mantissa_inv in C as (Hmin & _).
    unfold SF2Q, scaled.
    replace (cond_Zopp s (Z.pos m * 2 ^ (e - emin prec emax)))
      with (cond_Zopp s (Z.pos m) * 2 ^ (e - emin prec emax))
      by (destruct s; cbn [cond_Zopp]; now rewrite ?Z.mul_opp_l).
    rewrite inject_Z_mult, Zpower_Qpower by lia.
    replace e with ((e - emin prec emax) + emin prec emax) at 1 by lia.
    rewrite Qpower_plus by discriminate.
    change (inject_Z 2) with 2%Q. ring.
Qed.
End FloatOrder.

(** A quotient of two integers lies in the unit interval when the nominator
    lies between zero and the denominator, on the denominator's side. *)
Lemma Qdiv_Z_unit_interval (a b : Z) :
  b <> 0%Z ->
  (0 <= inject_Z a / inject_Z b <= 1)%Q <->
  ((0 < b /\ 0 <= a <= b) \/ (b < 0 /\ b <= a <= 0))%Z.
Proof.
  intros Hb. destruct b as [|b|b]; [contradiction| |];
    unfold Qdiv, Qinv, Qmult, Qle, inject_Z; simpl; lia.
Qed.

(** ** Rounding to nearest, against the floats of the format *)

Section Shifts.
Local Open Scope Z_scope.

Lemma Pos_iter_xO (m d : positive) :
  Z.pos (Pos.iter xO m d) = Z.pos m * 2 ^ Z.pos d.
Proof.
  induction d as [|d IH] using Pos.peano_ind.
  - simpl Pos.iter. rewrite Pos2Z.inj_xO. change (2 ^ 1) with 2. lia.
  - rewrite Pos.iter_succ, Pos2Z.inj_xO, IH, Pos2Z.inj_succ, Z.pow_succ_r by lia.
    lia.
Qed.

Lemma digits2_pos_iter_xO (m d : positive) :
  Z.pos (digits2_pos (Pos.iter xO m d)) = Z.pos (digits2_pos m) + Z.pos d.
Proof.
  induction d as [|d IH] using Pos.peano_ind.
  - simpl Pos.iter. simpl digits2_pos. lia.
  - rewrite Pos.iter_succ. simpl digits2_pos. lia.
Qed.

Lemma digits2_pos_unique (m : positive) (k : Z) :
  2 ^ (k - 1) <= Z.pos m < 2 ^ k -> Z.pos (digits2_pos m) = k.
Proof.
  intros [Hlo Hhi]. destruct (digits2_pos_bounds m) as [Dlo Dhi].
  destruct (Z.lt_trichotomy (Z.pos (digits2_pos m)) k) as [H|[H|H]]; [|exact H|].
  - assert (2 ^ Z.pos (digits2_pos m) <= 2 ^ (k - 1))
      by (apply Z.pow_le_mono_r; lia).
    lia.
  - assert (0 <= k \/ k < 0) as [Hk|Hk] by lia.
    + assert (2 ^ k <= 2 ^ (Z.pos (digits2_pos m) - 1))
        by (apply Z.pow_le_mono_r; lia).
      lia.
    + rewrite (Z.pow_neg_r 2 k) in Hhi by lia. lia.
Qed.

Lemma shl_align_spec (m : positive) (e e' : Z) :
  exists m', shl_align m e e' = (m', Z.min e e')
    /\ Z.pos m' = Z.pos m * 2 ^ (e - Z.min e e')
    /\ Z.pos (digits2_pos m') + Z.min e e' = Z.pos (digits2_pos m) + e.
Proof.
  unfold shl_align.
  destruct (e' - e) as [|d|d] eqn:Hd.
  - exists m. replace (Z.min e e') with e by lia.
    rewrite Z.sub_diag. repeat split; lia.
  - exists m. replace (Z.min e e') with e by lia.
    rewrite Z.sub_diag. repeat split; lia.
  - exists (Pos.iter xO m d). replace (Z.min e e') with e' by lia.
    rewrite Pos_iter_xO, digits2_pos_iter_xO.
    replace (e - e') with (Z.pos d) by lia. repeat split; lia.
Qed.

Lemma shr_1_step (m0 k : Z) (mrs : shr_record) :
  0 <= m0 -> shr_state m0 k mrs -> shr_state m0 (k + 1) (shr_1 mrs).
Proof.
  intros Hm0 (Hk & Hm & Hrs).
  assert (Hpow : 0 < 2 ^ k) by (apply Z.pow_pos_nonneg; lia).
  assert (Hq : 0 <= shr_m mrs) by (rewrite Hm; apply Z.div_pos; lia).
  assert (Hmod : m0 mod 2 ^ (k + 1) = m0 mod 2 ^ k + 2 ^ k * (shr_m mrs mod 2)).
  { rewrite Z.pow_add_r by lia. change (2 ^ 1) with 2.
    rewrite Z.rem_mul_r by lia. now rewrite Hm. }
  assert (Hdiv : m0 / 2 ^ (k + 1) = shr_m mrs / 2).
  { rewrite Z.pow_add_r by lia. change (2 ^ 1) with 2.
    rewrite <- Z.div_div by lia. now rewrite Hm. }
  pose proof (Z.mod_pos_bound m0 (2 ^ k) Hpow) as Hb.
  pose proof (Z.mod_pos_bound (shr_m mrs) 2 ltac:(lia)) as Hb2.
  assert (Hzero : m0 mod 2 ^ (k + 1) = 0 <->
                  m0 mod 2 ^ k = 0 /\ shr_m mrs mod 2 = 0) by nia.
  unfold shr_state. rewrite Hdiv, Hzero, <- Hrs.
  split; [lia|].
  destruct mrs as [m r s]. cbn [shr_m shr_r shr_s] in *.
  destruct m as [|[p|p|]|p]; try lia; cbn [shr_1 shr_m shr_r shr_s].
  - cbn. split; [reflexivity|]. tauto.
  - rewrite Pos2Z.inj_xI. split.
    + replace (2 * Z.pos p + 1) with (Z.pos p * 2 + 1) by lia.
      rewrite Z.div_add_l by lia. reflexivity.
    + replace (2 * Z.pos p + 1) with (1 + Z.pos p * 2) by lia.
      rewrite Z.mod_add by lia. cbn. split; [discriminate | intros [_ H]; discriminate].
  - rewrite Pos2Z.inj_xO. split.
    + replace (2 * Z.pos p) with (Z.pos p * 2) by lia.
      now rewrite Z.div_mul by lia.
    + replace (2 * Z.pos p) with (Z.pos p * 2) by lia.
      rewrite Z.mod_mul by lia. cbn [orb]. tauto.
  - cbn. split; [reflexivity|]. split; [discriminate | intros [_ H]; discriminate].
Qed.

Lemma iter_pos_shr_1 (m0 : Z) (p : positive) :
  0 <= m0 ->
  forall (k : Z) (mrs : shr_record),
    shr_state m0 k mrs -> shr_state m0 (k + Z.pos p) (iter_pos shr_1 p mrs).
Proof.
  intros Hm0. induction p as [p IH|p IH|]; intros k mrs H; cbn [iter_pos].
  - replace (k + Z.pos p~1) with (k + 1 + Z.pos p + Z.pos p) by lia.
    now apply IH, IH, shr_1_step.
  - replace (k + Z.pos p~0) with (k + Z.pos p + Z.pos p) by lia.
    now apply IH, IH.
  - now apply shr_1_step.
Qed.
End Shifts.

Section Rounding.
Variables prec emax : Z.
Hypothesis prec_gt_0 : (0 < prec)%Z.

Local Open Scope Z_scope.

Local Notation "'emin''" := (emin prec emax).
Local Notation "'fexp''" := (fexp prec emax).

Lemma shr_spec (m e n : Z) :
  0 <= m -> 0 <= n ->
  exists mrs,
    shr {| shr_m := m; shr_r := false; shr_s := false |} e n = (mrs, e + n)
    /\ shr_state m n mrs.
Proof.
  intros Hm Hn.
  assert (Hinit : shr_state m 0 {| shr_m := m; shr_r := false; shr_s := false |}).
  { unfold shr_state. cbn [shr_m shr_r shr_s orb].
    change (2 ^ 0) with 1. rewrite Z.div_1_r, Z.mod_1_r. repeat split; lia. }
  destruct n as [|p|p]; [| |lia]; cbn [shr].
  - eexists. rewrite Z.add_0_r. split; [reflexivity | exact Hinit].
  - eexists. split; [reflexivity|].
    apply (iter_pos_shr_1 m p Hm 0 _ Hinit).
Qed.

Lemma round_nearest_even_bounds (mrs : shr_record) :
  shr_m mrs <= round_nearest_even (shr_m mrs) (loc_of_shr_record mrs)
            <= shr_m mrs + 1
  /\ (shr_r mrs || shr_s mrs = false ->
      round_nearest_even (shr_m mrs) (loc_of_shr_record mrs) = shr_m mrs).
Proof.
  destruct mrs as [m [] []]; cbn [shr_m shr_r shr_s loc_of_shr_record
                                  round_nearest_even orb];
    try destruct (Z.even m); split; try lia; try discriminate; reflexivity.
Qed.

(** Quotients by a power of two lose that many digits. *)
Lemma div_pow2_bounds (m : positive) (n : Z) :
  0 <= n < Z.pos (digits2_pos m) ->
  2 ^ (Z.pos (digits2_pos m) - n - 1) <= Z.pos m / 2 ^ n
                                      < 2 ^ (Z.pos (digits2_pos m) - n).
Proof.
  intros Hn. destruct (digits2_pos_bounds m) as [Dlo Dhi].
  assert (Hpow : 0 < 2 ^ n) by (apply Z.pow_pos_nonneg; lia).
  split.
  - apply Z.div_le_lower_bound; [exact Hpow|].
    rewrite <- Z.pow_add_r by lia.
    now replace (n + (Z.pos (digits2_pos m) - n - 1))
      with (Z.pos (digits2_pos m) - 1) by lia.
  - apply Z.div_lt_upper_bound; [exact Hpow|].
    rewrite <- Z.pow_add_r by lia.
    now replace (n + (Z.pos (digits2_pos m) - n)) with (Z.pos (digits2_pos m)) by lia.
Qed.

(** The second normalisation of [binary_round_aux], after the mantissa may
    have grown by one unit: it ends on a canonical mantissa and loses
    nothing. *)
Lemma renormalize_spec (p2 : positive) (E D : Z) :
  emin' <= E -> 1 <= D -> fexp' (D + E) = E ->
  2 ^ (D - 1) <= Z.pos p2 <= 2 ^ D ->
  exists (mrs : shr_record) (m3 : positive) (e3 : Z),
    shr_fexp prec emax (Z.pos p2) E loc_Exact = (mrs, e3)
    /\ shr_m mrs = Z.pos m3
    /\ canonical_mantissa prec emax m3 e3 = true
    /\ Z.pos m3 * 2 ^ (e3 - emin') = Z.pos p2 * 2 ^ (E - emin').
Proof.
  intros HE HD Hfexp [Hlo Hhi].
  unfold shr_fexp. cbn [Zdigits2 shr_record_of_loc].
  assert (Hcases : Z.pos p2 < 2 ^ D \/ Z.pos p2 = 2 ^ D) by lia.
  destruct Hcases as [Hlt|Heq].
  - (* the mantissa still has [D] digits: nothing to do *)
    rewrite (digits2_pos_unique p2 D) by lia.
    rewrite Hfexp, Z.sub_diag.
    destruct (shr_spec (Z.pos p2) E 0) as (mrs & -> & (_ & Hm & _)); try lia.
    change (2 ^ 0) with 1 in Hm. rewrite Z.div_1_r in Hm.
    exists mrs, p2, (E + 0). rewrite Z.add_0_r.
    repeat split; auto.
    unfold canonical_mantissa. rewrite (digits2_pos_unique p2 D) by lia.
    now rewrite Hfexp, Z.eqb_refl.
  - (* the mantissa is [2 ^ D]: one more digit *)
    assert (Hd2 : Z.pos (digits2_pos p2) = D + 1).
    { apply digits2_pos_unique. replace (D + 1 - 1) with D by lia.
      rewrite Heq, Z.pow_add_r by lia. change (2 ^ 1) with 2.
      assert (0 < 2 ^ D) by (apply Z.pow_pos_nonneg; lia). lia. }
    rewrite Hd2.
    assert (Hn2 : fexp' (D + 1 + E) - E = 0 \/ fexp' (D + 1 + E) - E = 1)
      by (revert Hfexp; unfold SpecFloat.fexp; lia).
    destruct Hn2 as [Hn2|Hn2]; rewrite Hn2.
    + destruct (shr_spec (Z.pos p2) E 0) as (mrs & -> & (_ & Hm & _)); try lia.
      change (2 ^ 0) with 1 in Hm. rewrite Z.div_1_r in Hm.
      exists mrs, p2, (E + 0). rewrite Z.add_0_r.
      repeat split; auto.
      unfold canonical_mantissa. rewrite Hd2.
      apply Z.eqb_eq. lia.
    + destruct (shr_spec (Z.pos p2) E 1) as (mrs & -> & (_ & Hm & _)); try lia.
      assert (Hhalf : Z.pos p2 / 2 ^ 1 = 2 ^ (D - 1)).
      { rewrite Heq. replace D with (D - 1 + 1) at 1 by lia.
        rewrite Z.pow_add_r by lia. apply Z.div_mul. discriminate. }
      assert (Hpos : 0 < 2 ^ (D - 1)) by (apply Z.pow_pos_nonneg; lia).
      rewrite Hhalf in Hm.
      destruct (shr_m mrs) as [|m3|m3] eqn:Hm3; try lia.
      exists mrs, m3, (E + 1).
      repeat split; auto.
      * unfold canonical_mantissa.
        rewrite (digits2_pos_unique m3 D).
        -- apply Z.eqb_eq. replace (D + (E + 1)) with (D + 1 + E) by lia. lia.
        -- rewrite Hm. split; [lia|].
           apply Z.pow_lt_mono_r; lia.
      * rewrite Hm, Heq.
        replace (E + 1 - emin') with (1 + (E - emin')) by lia.
        rewrite Z.pow_add_r by lia.
        replace D with (D - 1 + 1) at 2 by lia.
        rewrite (Z.pow_add_r 2 (D - 1) 1) by lia. ring.
Qed.

(** What [binary_round] returns for a mantissa at an exponent of the format:
    a canonical mantissa denoting [m2 * G], where [G] is the spacing of the
    floats around the number rounded and [m2] its quotient by [G] or that
    quotient plus one (the quotient itself when the division is exact); or
    the infinity, when the exponent of that mantissa is too large. *)
Lemma binary_round_spec (s : bool) (m : positive) (e : Z) :
  emin' <= e ->
  exists (m3 : positive) (e3 m2 : Z),
    binary_round prec emax s m e
    = (if e3 <=? emax - prec then S754_finite s m3 e3 else S754_infinity s)
    /\ canonical_mantissa prec emax m3 e3 = true
    /\ Z.pos m3 * 2 ^ (e3 - emin') = m2 * round_grid prec emax m e
    /\ round_value prec emax m e / round_grid prec emax m e <= m2
       <= round_value prec emax m e / round_grid prec emax m e + 1
    /\ (round_value prec emax m e mod round_grid prec emax m e = 0 ->
        m2 = round_value prec emax m e / round_grid prec emax m e).
Proof.
  intros He. unfold round_value, round_grid.
  set (E := fexp' (Z.pos (digits2_pos m) + e)).
  assert (HE : emin' <= E) by (unfold E, SpecFloat.fexp; lia).
  unfold binary_round. fold E.
  destruct (shl_align_spec m e E) as (mz & -> & Hmz & Hdz).
  set (ez := Z.min e E) in *.
  assert (Hez : emin' <= ez <= E) by lia.
  (* first shift: down to the exponent [E] *)
  unfold binary_round_aux, shr_fexp at 1. cbn [Zdigits2 shr_record_of_loc].
  rewrite Hdz. fold E.
  destruct (shr_spec (Z.pos mz) ez (E - ez)) as (mrs1 & -> & (_ & Hm1 & Hrs1));
    try lia.
  replace (ez + (E - ez)) with E by lia.
  set (n := E - ez) in *.
  set (D := Z.pos (digits2_pos mz) - n).
  assert (HD : 1 <= D <= prec) by (unfold D, n, E, SpecFloat.fexp in *; lia).
  assert (Hn : 0 <= n < Z.pos (digits2_pos mz)) by lia.
  pose proof (div_pow2_bounds mz n Hn) as Hq. fold D in Hq.
  replace (Z.pos (digits2_pos mz) - n - 1) with (D - 1) in Hq by lia.
  rewrite <- Hm1 in Hq.
  (* rounding: the quotient or its successor *)
  destruct (round_nearest_even_bounds mrs1) as [Hm2 Hexact].
  set (m2 := round_nearest_even (shr_m mrs1) (loc_of_shr_record mrs1)) in *.
  assert (Hpos : 0 < 2 ^ (D - 1)) by (apply Z.pow_pos_nonneg; lia).
  destruct m2 as [|p2|p2] eqn:Hp2; try lia.
  (* second shift: renormalisation *)
  assert (Hfexp : fexp' (D + E) = E).
  { unfold D, n. replace (Z.pos (digits2_pos mz) - (E - ez) + E)
      with (Z.pos (digits2_pos m) + e) by lia. reflexivity. }
  destruct (renormalize_spec p2 E D HE ltac:(lia) Hfexp) as
    (mrs2 & m3 & e3 & -> & -> & Hcan & Hval).
  { split; [lia|].
    replace D with (D - 1 + 1) by lia. rewrite Z.pow_add_r by lia.
    change (2 ^ 1) with 2.
    replace D with (D - 1 + 1) in Hq by lia. rewrite Z.pow_add_r in Hq by lia.
    change (2 ^ 1) with 2 in Hq. lia. }
  exists m3, e3, (Z.pos p2).
  (* the quotient of the number rounded by the spacing *)
  assert (HK : 0 < 2 ^ (ez - emin')) by (apply Z.pow_pos_nonneg; lia).
  assert (HN : 0 < 2 ^ n) by (apply Z.pow_pos_nonneg; lia).
  assert (HV : Z.pos m * 2 ^ (e - emin') = Z.pos mz * 2 ^ (ez - emin')).
  { rewrite Hmz, <- Z.mul_assoc, <- Z.pow_add_r by lia.
    now replace (e - ez + (ez - emin')) with (e - emin') by lia. }
  assert (HG : 2 ^ (E - emin') = 2 ^ n * 2 ^ (ez - emin')).
  { rewrite <- Z.pow_add_r by lia. f_equal. lia. }
  rewrite HV, HG.
  rewrite Z.div_mul_cancel_r, Z.mul_mod_distr_r by lia.
  rewrite <- Hm1.
  repeat split; auto; try lia.
  intros Hzero. apply Hexact, Hrs1.
  apply Z.mul_eq_0 in Hzero. lia.
Qed.

Lemma grid_lower (V G q m2 : Z) :
  0 < G -> q * G <= V -> V / G <= m2 -> q * G <= m2 * G.
Proof.
  intros HG HV Hm2.
  assert (q <= V / G) by (apply Z.div_le_lower_bound; lia).
  nia.
Qed.

Lemma grid_upper (V G q m2 : Z) :
  0 < G -> V <= q * G -> m2 <= V / G + 1 -> (V mod G = 0 -> m2 = V / G) ->
  m2 * G <= q * G.
Proof.
  intros HG HV Hm2 Hexact.
  pose proof (Z.div_mod V G ltac:(lia)) as Hdm.
  pose proof (Z.mod_pos_bound V G HG) as Hb.
  destruct (Z.eq_dec (V mod G) 0) as [Hz|Hnz].
  - rewrite (Hexact Hz). nia.
  - assert (V / G < q) by nia. nia.
Qed.

(** A float of the format below the number rounded is below its rounding. *)
Lemma binary_round_lower (m mx : positive) (e ex : Z) :
  emin' <= e -> canonical_mantissa prec emax mx ex = true ->
  Z.pos mx * 2 ^ (ex - emin') <= round_value prec emax m e ->
  forall (m3 : positive) (e3 m2 : Z),
    Z.pos m3 * 2 ^ (e3 - emin') = m2 * round_grid prec emax m e ->
    round_value prec emax m e / round_grid prec emax m e <= m2 ->
    Z.pos mx * 2 ^ (ex - emin') <= Z.pos m3 * 2 ^ (e3 - emin').
Proof.
  intros He Hcx Hle m3 e3 m2 Hval Hm2. rewrite Hval.
  unfold round_value, round_grid in *.
  set (E := fexp' (Z.pos (digits2_pos m) + e)) in *.
  assert (HE : emin' <= E) by (unfold E, SpecFloat.fexp; lia).
  assert (HG : 0 < 2 ^ (E - emin')) by (apply Z.pow_pos_nonneg; lia).
  apply canonical_mantissa_inv in Hcx as (Hminx & Hdx & Hnx).
  destruct (Z.le_gt_cases E ex) as [Hex|Hex].
  - (* [x] is on the grid *)
    replace (2 ^ (ex - emin')) with (2 ^ (ex - E) * 2 ^ (E - emin')) in *
      by (rewrite <- Z.pow_add_r by lia; f_equal; lia).
    rewrite Z.mul_assoc in *.
    now apply grid_lower with (V := Z.pos m * 2 ^ (e - emin')).
  - (* [x] is in a binade below *)
    assert (HEn : E = Z.pos (digits2_pos m) + e - prec)
      by (unfold E, SpecFloat.fexp in *; lia).
    destruct (digits2_pos_bounds mx) as [_ Hmx].
    destruct (digits2_pos_bounds m) as [Hm _].
    assert (Hx : Z.pos mx * 2 ^ (ex - emin') < 2 ^ (prec - 1) * 2 ^ (E - emin')).
    { apply Z.lt_le_trans with (2 ^ Z.pos (digits2_pos mx) * 2 ^ (ex - emin')).
      - apply Z.mul_lt_mono_pos_r; [apply Z.pow_pos_nonneg; lia | lia].
      - rewrite <- !Z.pow_add_r by lia. apply Z.pow_le_mono_r; lia. }
    assert (HV : 2 ^ (prec - 1) * 2 ^ (E - emin') <= Z.pos m * 2 ^ (e - emin')).
    { apply Z.le_trans with (2 ^ (Z.pos (digits2_pos m) - 1) * 2 ^ (e - emin')).
      - rewrite <- !Z.pow_add_r by lia. apply Z.pow_le_mono_r; lia.
      - apply Z.mul_le_mono_nonneg_r; [apply Z.pow_nonneg; lia | lia]. }
    apply Z.lt_le_incl, Z.lt_le_trans with (1 := Hx).
    now apply grid_lower with (V := Z.pos m * 2 ^ (e - emin')).
Qed.

(** A float of the format above the number rounded is above its rounding. *)
Lemma binary_round_upper (m mx : positive) (e ex : Z) :
  emin' <= e -> canonical_mantissa prec emax mx ex = true ->
  round_value prec emax m e <= Z.pos mx * 2 ^ (ex - emin') ->
  forall (m3 : positive) (e3 m2 : Z),
    Z.pos m3 * 2 ^ (e3 - emin') = m2 * round_grid prec emax m e ->
    m2 <= round_value prec emax m e / round_grid prec emax m e + 1 ->
    (round_value prec emax m e mod round_grid prec emax m e = 0 ->
     m2 = round_value prec emax m e / round_grid prec emax m e) ->
    Z.pos m3 * 2 ^ (e3 - emin') <= Z.pos mx * 2 ^ (ex - emin').
Proof.
  intros He Hcx Hle m3 e3 m2 Hval Hm2 Hexact. rewrite Hval.
  unfold round_value, round_grid in *.
  set (E := fexp' (Z.pos (digits2_pos m) + e)) in *.
  assert (HE : emin' <= E) by (unfold E, SpecFloat.fexp; lia).
  assert (HG : 0 < 2 ^ (E - emin')) by (apply Z.pow_pos_nonneg; lia).
  pose proof Hcx as Hfx. unfold canonical_mantissa in Hfx. apply Z.eqb_eq in Hfx.
  apply canonical_mantissa_inv in Hcx as (Hminx & Hdx & Hnx).
  destruct (digits2_pos_bounds mx) as [_ Hmx].
  destruct (digits2_pos_bounds m) as [Hm _].
  (* the number rounded has no more digits than [x] *)
  assert (Hmag : Z.pos (digits2_pos m) + e <= Z.pos (digits2_pos mx) + ex).
  { assert (H : 2 ^ (Z.pos (digits2_pos m) - 1 + (e - emin'))
                < 2 ^ (Z.pos (digits2_pos mx) + (ex - emin'))).
    { rewrite !Z.pow_add_r by lia.
      apply Z.le_lt_trans with (Z.pos m * 2 ^ (e - emin')).
      - apply Z.mul_le_mono_nonneg_r; [apply Z.pow_nonneg; lia | lia].
      - apply Z.le_lt_trans with (1 := Hle).
        apply Z.mul_lt_mono_pos_r; [apply Z.pow_pos_nonneg; lia | lia]. }
    apply Z.pow_lt_mono_r_iff in H; lia. }
  assert (Hex : E <= ex) by (unfold E, SpecFloat.fexp in *; lia).
  replace (2 ^ (ex - emin')) with (2 ^ (ex - E) * 2 ^ (E - emin')) in *
    by (rewrite <- Z.pow_add_r by lia; f_equal; lia).
  rewrite Z.mul_assoc in *.
  now apply grid_upper with (V := Z.pos m * 2 ^ (e - emin')).
Qed.

Lemma SFltb_irrefl (x : spec_float) : SFltb x x = false.
Proof.
  destruct x as [|[]| |[] m e]; try reflexivity;
    unfold SFltb, SFcompare; now rewrite Z.compare_refl, Pos.compare_cont_refl.
Qed.

(** Rounding a positive number that is not below the positive float [x]
    does not give less than [x]. *)
Lemma binary_round_not_below (m mx : positive) (e ex : Z) :
  emin' <= e -> bounded prec emax mx ex = true ->
  Z.pos mx * 2 ^ (ex - emin') <= round_value prec emax m e ->
  SFltb (binary_round prec emax false m e) (S754_finite false mx ex) = false.
Proof.
  intros He Hbx Hle.
  destruct (binary_round_spec false m e He) as
    (m3 & e3 & m2 & -> & Hc3 & Hval & [Hm2 _] & _).
  pose proof (proj1 (bounded_inv prec emax mx ex Hbx)) as Hcx.
  pose proof (binary_round_lower m mx e ex He Hcx Hle m3 e3 m2 Hval Hm2) as H3.
  destruct (e3 <=? emax - prec) eqn:He3; [|reflexivity].
  rewrite (SFltb_scaled prec emax prec_gt_0); try reflexivity; try exact Hbx.
  - cbn [scaled cond_Zopp]. apply Z.ltb_ge. exact H3.
  - cbn [valid_binary]. unfold bounded. now rewrite Hc3, He3.
Qed.

(** Rounding a negative number that is not below the negative float [x]
    does not give less than [x]; in particular it does not overflow. *)
Lemma binary_round_neg_not_below (m mx : positive) (e ex : Z) :
  emin' <= e -> bounded prec emax mx ex = true ->
  round_value prec emax m e <= Z.pos mx * 2 ^ (ex - emin') ->
  SFltb (binary_round prec emax true m e) (S754_finite true mx ex) = false.
Proof.
  intros He Hbx Hle.
  destruct (binary_round_spec true m e He) as
    (m3 & e3 & m2 & -> & Hc3 & Hval & [_ Hm2] & Hexact).
  destruct (bounded_inv prec emax mx ex Hbx) as [Hcx Hex].
  pose proof (binary_round_upper m mx e ex He Hcx Hle m3 e3 m2 Hval Hm2 Hexact)
    as H3.
  assert (He3 : e3 <= ex).
  { destruct (Z.le_gt_cases e3 ex) as [H|H]; [exact H|].
    pose proof (canonical_exponent_lt prec emax prec_gt_0 mx m3 ex e3 Hcx Hc3 H).
    lia. }
  replace (e3 <=? emax - prec) with true by (symmetry; apply Z.leb_le; lia).
  rewrite (SFltb_scaled prec emax prec_gt_0); try reflexivity; try exact Hbx.
  - cbn [scaled cond_Zopp]. apply Z.ltb_ge. lia.
  - cbn [valid_binary]. unfold bounded. rewrite Hc3. apply Z.leb_le. lia.
Qed.

(** Adding a float that is not negative does not give less: rounding to
    nearest is monotone and [x] is a float of the format. *)
Lemma SFadd_nonneg_not_below (x w : spec_float) :
  valid_binary prec emax x = true -> valid_binary prec emax w = true ->
  SFleb (S754_zero false) w = true ->
  SFltb (SFadd prec emax x w) x = false.
Proof.
  intros Vx Vw Hw.
  destruct w as [sw|[]| |[] mw ew]; try discriminate.
  - rewrite SFadd_zero_r. apply SFltb_irrefl.
  - destruct x as [|[]| |]; reflexivity.
  - destruct x as [sx|sx| |sx mx ex].
    + reflexivity.
    + destruct sx; reflexivity.
    + reflexivity.
    + cbn [valid_binary] in Vx, Vw. cbn [SFadd].
      destruct (bounded_inv prec emax mx ex Vx) as [Hcx _].
      destruct (bounded_inv prec emax mw ew Vw) as [Hcw _].
      apply canonical_mantissa_inv in Hcx as (Hminx & _).
      apply canonical_mantissa_inv in Hcw as (Hminw & _).
      set (ez := Z.min ex ew).
      destruct (shl_align_spec mx ex ez) as (X & -> & HX & _).
      destruct (shl_align_spec mw ew ez) as (W & -> & HW & _).
      cbn [fst]. replace (Z.min ex ez) with ez in HX by lia.
      assert (Hez : emin' <= ez) by lia.
      assert (HVx : Z.pos mx * 2 ^ (ex - emin') = Z.pos X * 2 ^ (ez - emin')).
      { rewrite HX, <- Z.mul_assoc, <- Z.pow_add_r by lia. do 2 f_equal. lia. }
      assert (HK : 0 < 2 ^ (ez - emin')) by (apply Z.pow_pos_nonneg; lia).
      destruct sx; cbn [cond_Zopp].
      * (* a negative [x] *)
        destruct (- Z.pos X + Z.pos W) as [|M|M] eqn:Hsum; cbn [binary_normalize].
        -- reflexivity.
        -- destruct (binary_round_spec false M ez Hez) as (m3 & e3 & m2 & -> & _).
           now destruct (e3 <=? emax - prec).
        -- apply binary_round_neg_not_below; auto.
           rewrite HVx. unfold round_value.
           apply Z.mul_le_mono_nonneg_r; lia.
      * (* a positive [x] *)
        change (Z.pos X + Z.pos W) with (Z.pos (X + W)). cbn [binary_normalize].
        apply binary_round_not_below; auto.
        rewrite HVx. unfold round_value.
        apply Z.mul_le_mono_nonneg_r; lia.
Qed.
End Rounding.

(** ** Properties of the routines on [float] arguments *)

Local Open Scope cpp_scope.

(** *** Line and box *)

(** C6: a segment whose origin or whose end point [(x1 + dx1, y1 + dy1)]
    satisfies [collision_point_box] collides with the box. *)
Theorem line_box_end_point_in_box (x1 y1 dx1 dy1 x2 y2 w2 h2 : float32) :
  collision_point_box x1 y1 x2 y2 w2 h2 = true
  \/ collision_point_box (x1 + dx1) (y1 + dy1) x2 y2 w2 h2 = true ->
  collision_line_box x1 y1 dx1 dy1 x2 y2 w2 h2 = true.
Proof.
  unfold collision_line_box.
  intros [Horigin | Hend].
  - now rewrite Horigin.
  - rewrite Hend. now destruct (collision_point_box x1 y1 x2 y2 w2 h2).
Qed.

Lemma line_box_end_point_in_box_witness :
  (collision_point_box (of_Z 1) (of_Z 1) (of_Z 2) (of_Z 2) (of_Z 10) (of_Z 10) = true
   \/ collision_point_box (of_Z 1 + of_Z 7) (of_Z 1 + of_Z 7)
                          (of_Z 2) (of_Z 2) (of_Z 10) (of_Z 10) = true)
  /\ collision_line_box (of_Z 1) (of_Z 1) (of_Z 7) (of_Z 7)
                        (of_Z 2) (of_Z 2) (of_Z 10) (of_Z 10) = true.
Proof.
  assert (Hend : collision_point_box (of_Z 1 + of_Z 7) (of_Z 1 + of_Z 7)
                   (of_Z 2) (of_Z 2) (of_Z 10) (of_Z 10) = true)
    by (vm_compute; reflexivity).
  split; [right; exact Hend | apply line_box_end_point_in_box; right; exact Hend].
Defined.

(** *** Boxes *)

(** C9: a box with zero extents is the point at its origin. *)
Theorem box_box_zero_extents (x1 y1 x2 y2 w2 h2 : float32) :
  collision_box_box x1 y1 zero zero x2 y2 w2 h2
  = collision_point_box x1 y1 x2 y2 w2 h2.
Proof.
  unfold collision_box_box, collision_point_box. f32.
  now rewrite !SFadd_zero_r.
Qed.

(** *** Circles *)

Lemma minmax_list_opp (r : spec_float) :
  exists lo hi lo' hi',
    minmax_list (L := SFltb) [SFopp r; r] = Some (lo, hi)
    /\ minmax_list (L := SFltb) [SFopp (SFopp r); SFopp r] = Some (lo', hi')
    /\ zeq lo lo' /\ zeq hi hi'.
Proof.
  float_cases r; cbv [minmax_list minmax_from SFopp negb ltb];
    do 4 eexists; (split; [reflexivity|]); cbn;
    (split; [reflexivity|]); split; simpl; auto.
Qed.

Lemma overlap_opp (l : list spec_float) (r : spec_float) :
  overlap (L := SFltb) l [SFopp r; r]
  = overlap (L := SFltb) l [SFopp (SFopp r); SFopp r].
Proof.
  unfold overlap.
  destruct (minmax_list_opp r) as (lo & hi & lo' & hi' & -> & -> & Hlo & Hhi).
  destruct (minmax_list l) as [[a b]|]; [|reflexivity].
  cbv [fst snd ltb]. now rewrite Hlo, Hhi.
Qed.

(** C10: the sign of the radius does not matter to [collision_point_circle]
    and to [collision_circle_box]. *)
Theorem radius_sign_irrelevant (x1 y1 x2 y2 r w2 h2 : float32) :
  collision_point_circle x1 y1 x2 y2 r = collision_point_circle x1 y1 x2 y2 (- r)
  /\ collision_circle_box x1 y1 r x2 y2 w2 h2
     = collision_circle_box x1 y1 (- r) x2 y2 w2 h2.
Proof.
  split.
  - unfold collision_point_circle. f32. now rewrite SFmul_opp_opp.
  - unfold collision_circle_box. f32.
    rewrite <- !overlap_opp, !SFmul_opp_opp. reflexivity.
Qed.

(** *** Symmetry of the same-kind routines *)

Lemma line_line_symmetric (x1 y1 dx1 dy1 x2 y2 dx2 dy2 : float32) :
  collision_line_line x1 y1 dx1 dy1 x2 y2 dx2 dy2
  = collision_line_line x2 y2 dx2 dy2 x1 y1 dx1 dy1.
Proof.
  unfold collision_line_line.
  set (pl12 := collision_point_line x1 y1 x2 y2 dx2 dy2).
  set (pl21 := collision_point_line x2 y2 x1 y1 dx1 dy1).
  f32.
  set (cross := SFsub prec32 emax32 (SFmul prec32 emax32 dx2 dy1)
                                    (SFmul prec32 emax32 dy2 dx1)).
  set (cross' := SFsub prec32 emax32 (SFmul prec32 emax32 dx1 dy2)
                                     (SFmul prec32 emax32 dy1 dx2)).
  set (p := SFsub prec32 emax32
              (SFmul prec32 emax32 (SFsub prec32 emax32 y2 y1) dx1)
              (SFmul prec32 emax32 (SFsub prec32 emax32 x2 x1) dy1)).
  set (q := SFsub prec32 emax32
              (SFmul prec32 emax32 (SFsub prec32 emax32 x2 x1) dy2)
              (SFmul prec32 emax32 (SFsub prec32 emax32 y2 y1) dx2)).
  set (p' := SFsub prec32 emax32
               (SFmul prec32 emax32 (SFsub prec32 emax32 y1 y2) dx2)
               (SFmul prec32 emax32 (SFsub prec32 emax32 x1 x2) dy2)).
  set (q' := SFsub prec32 emax32
               (SFmul prec32 emax32 (SFsub prec32 emax32 x1 x2) dy1)
               (SFmul prec32 emax32 (SFsub prec32 emax32 y1 y2) dx1)).
  (* the swapped call computes the opposite cross term ... *)
  assert (Hcross : zeq cross' (SFopp cross)).
  { subst cross cross'.
    rewrite (SFmul_comm _ _ dx1 dy2), (SFmul_comm _ _ dy1 dx2). apply SFsub_antisym. }
  (* ... and exchanges the two projections *)
  assert (Hp : zeq p' q).
  { subst p' q.
    rewrite (SFsub_antisym _ _ y2 y1), (SFsub_antisym _ _ x2 x1), !SFmul_opp_l.
    apply SFsub_opp_opp. }
  assert (Hq : zeq q' p).
  { subst q' p.
    rewrite (SFsub_antisym _ _ y2 y1), (SFsub_antisym _ _ x2 x1), !SFmul_opp_l.
    apply SFsub_opp_opp. }
  assert (E0 : SFeqb cross' (S754_zero false) = SFeqb cross (S754_zero false))
    by now rewrite Hcross, SFeqb_opp_zero.
  assert (E1 : SFltb p' (S754_zero false) = SFltb q (S754_zero false))
    by now rewrite Hp.
  assert (E2 : SFltb p' cross' = SFltb q (SFopp cross)) by now rewrite Hp, Hcross.
  assert (E3 : SFltb q' (S754_zero false) = SFltb p (S754_zero false))
    by now rewrite Hq.
  assert (E4 : SFltb q' (SFopp cross') = SFltb p cross)
    by now rewrite Hq, Hcross, SFopp_involutive.
  rewrite E0, E1, E2, E3, E4.
  destruct (SFeqb cross (S754_zero false)), pl12, pl21,
    (Bool.eqb (SFltb p (S754_zero false)) (SFltb p cross)),
    (Bool.eqb (SFltb q (S754_zero false)) (SFltb q (SFopp cross))); reflexivity.
Qed.

Lemma circle_circle_symmetric (x1 y1 r1 x2 y2 r2 : float32) :
  collision_circle_circle x1 y1 r1 x2 y2 r2
  = collision_circle_circle x2 y2 r2 x1 y1 r1.
Proof.
  unfold collision_circle_circle. f32.
  rewrite (SFsub_antisym _ _ x1 x2), (SFsub_antisym _ _ y1 y2), !SFmul_opp_opp.
  now rewrite (SFadd_comm _ _ r2 r1).
Qed.

Lemma box_box_symmetric (x1 y1 w1 h1 x2 y2 w2 h2 : float32) :
  collision_box_box x1 y1 w1 h1 x2 y2 w2 h2
  = collision_box_box x2 y2 w2 h2 x1 y1 w1 h1.
Proof.
  unfold collision_box_box.
  destruct (x1 + w1 < x2), (y1 + h1 < y2), (x2 + w2 < x1), (y2 + h2 < y1);
    reflexivity.
Qed.

(** C2: [collision_line_line], [collision_circle_circle] and
    [collision_box_box] give the same answer when the argument blocks of the
    two shapes are exchanged. *)
Theorem same_kind_symmetric
    (x1 y1 dx1 dy1 x2 y2 dx2 dy2 r1 r2 w1 h1 w2 h2 : float32) :
  collision_line_line x1 y1 dx1 dy1 x2 y2 dx2 dy2
  = collision_line_line x2 y2 dx2 dy2 x1 y1 dx1 dy1
  /\ collision_circle_circle x1 y1 r1 x2 y2 r2
     = collision_circle_circle x2 y2 r2 x1 y1 r1
  /\ collision_box_box x1 y1 w1 h1 x2 y2 w2 h2
     = collision_box_box x2 y2 w2 h2 x1 y1 w1 h1.
Proof.
  split; [apply line_line_symmetric|].
  split; [apply circle_circle_symmetric | apply box_box_symmetric].
Qed.

(** *** Points *)

Lemma SFeqb_finite_inv (s1 s2 : bool) (m1 m2 : positive) (e1 e2 : Z) :
  SFeqb (S754_finite s1 m1 e1) (S754_finite s2 m2 e2) = true ->
  s1 = s2 /\ m1 = m2 /\ e1 = e2.
Proof.
  unfold SFeqb, SFcompare. rewrite Pos.compare_cont_spec.
  destruct s1, s2; try discriminate;
    destruct (Z.compare_spec e1 e2) as [He|He|He]; try discriminate;
    destruct (Pos.compare_spec m1 m2) as [Hm|Hm|Hm]; try discriminate;
    auto.
Qed.

Lemma SFeqb_same_value (x y : spec_float) :
  SFeqb x y = true <-> same_value x y.
Proof.
  unfold same_value. split.
  - destruct x as [sx|sx| |sx mx ex], y as [sy|sy| |sy my ey];
      try discriminate; try (destruct sx, sy; discriminate);
      try (destruct sx; discriminate); try (destruct sy; discriminate).
    + intros _. simpl. auto.
    + destruct sx, sy; try discriminate; simpl; auto.
    + intros H. apply SFeqb_finite_inv in H as (-> & -> & ->). simpl. auto.
  - intros (Hx & Hy & Hxy).
    rewrite Hxy. destruct y as [sy|[]| |[] my ey]; try discriminate; try reflexivity;
      unfold SFeqb, SFcompare; now rewrite Z.compare_refl, Pos.compare_cont_refl.
Qed.

(** C5, refuted as stated: a NaN coordinate is not equal to itself. *)
Lemma nan_point_not_reflexive :
  collision_point_point S754_nan (of_Z 0) S754_nan (of_Z 0) = false.
Proof. reflexivity. Qed.

(** C5, amended: [collision_point_point x y x y] holds exactly when neither
    coordinate is NaN, and [collision_point_point x1 y1 x2 y2] holds only for
    coordinates that are pairwise the same value, with no tolerance. *)
Theorem point_point_exact (x1 y1 x2 y2 : float32) :
  collision_point_point x1 y1 x1 y1 = negb (is_nan x1) && negb (is_nan y1)
  /\ (collision_point_point x1 y1 x2 y2 = true <->
      same_value x1 x2 /\ same_value y1 y2).
Proof.
  unfold collision_point_point. f32. split.
  - f_equal; [destruct x1 as [|[]| |[]]|destruct y1 as [|[]| |[]]];
      try reflexivity;
      unfold SFeqb, SFcompare; now rewrite Z.compare_refl, Pos.compare_cont_refl.
  - now rewrite andb_true_iff, !SFeqb_same_value.
Qed.

Lemma SFsub_diag_zero (x : spec_float) :
  is_finite x = true -> is_zero (SFsub prec32 emax32 x x) = true.
Proof.
  destruct x as [[]|[]| |s m e]; try discriminate; try reflexivity.
  intros _. simpl. now rewrite Z.sub_diag.
Qed.

Lemma SFsub_eq_zero (x y : spec_float) :
  is_finite x = true -> SFeqb x y = true ->
  is_zero (SFsub prec32 emax32 x y) = true.
Proof.
  intros Hx Hxy. apply SFeqb_same_value in Hxy as (_ & _ & Hxy).
  destruct x as [sx|sx| |sx mx ex], y as [sy|sy| |sy my ey];
    simpl in Hxy; try discriminate; try (now destruct sx, sy).
  rewrite <- Hxy. now apply SFsub_diag_zero.
Qed.

Lemma SFmul_zero_finite (x y : spec_float) :
  is_zero x = true -> is_finite y = true ->
  is_zero (SFmul prec32 emax32 x y) = true.
Proof. destruct x, y; try discriminate; reflexivity. Qed.

Lemma SFsub_zero_zero (x y : spec_float) :
  is_zero x = true -> is_zero y = true ->
  is_zero (SFsub prec32 emax32 x y) = true.
Proof. destruct x as [[]| | |], y as [[]| | |]; try discriminate; reflexivity. Qed.

Lemma constexpr_abs_nonnegative (x : float32) :
  SFltb (constexpr_abs x) (S754_zero false) = false.
Proof. float_cases x; reflexivity. Qed.

(** A vanishing nominator passes the fraction test whatever the denominator
    is, a zero, an infinity or NaN included. *)
Lemma fraction_between_zero_and_one_zero (n d : float32) :
  is_zero n = true -> fraction_between_zero_and_one n d = true.
Proof.
  intros Hn. destruct n as [s| | |]; try discriminate.
  unfold fraction_between_zero_and_one, fraction_less_than_zero. f32.
  assert (Hz : zeq (constexpr_abs (S754_zero s)) (S754_zero false))
    by (destruct s; exact I).
  cbn [SFeqb SFcompare]. f32. rewrite Hz.
  now rewrite constexpr_abs_nonnegative.
Qed.

(** C8, refuted as stated: with an infinite edge component the products by
    the vanishing differences are NaN, and the base vertex is rejected. *)
Lemma base_vertex_rejected_infinite_edge :
  collision_point_triangle (of_Z 0) (of_Z 0) (of_Z 0) (of_Z 0)
                           (of_Z 0) (of_Z 1) (S754_infinity false) (of_Z 0)
  = false.
Proof. vm_compute. reflexivity. Qed.

(** An infinite base vertex is rejected too, also with finite edges: its
    difference with itself is NaN. *)
Example base_vertex_rejected_infinite_vertex :
  collision_point_triangle (S754_infinity false) (of_Z 0) (S754_infinity false) (of_Z 0)
                           (of_Z 1) (of_Z 0) (of_Z 0) (of_Z 1)
  = false.
Proof. vm_compute. reflexivity. Qed.

(** C8, amended: for a base vertex with finite coordinates and edge vectors
    with finite components, collinear or not, the base vertex of a triangle
    is inside the triangle. *)
Theorem point_triangle_base_vertex (x2 y2 sxa2 sya2 sxb2 syb2 : float32) :
  is_finite x2 = true -> is_finite y2 = true ->
  is_finite sxa2 = true -> is_finite sya2 = true ->
  is_finite sxb2 = true -> is_finite syb2 = true ->
  collision_point_triangle x2 y2 x2 y2 sxa2 sya2 sxb2 syb2 = true.
Proof.
  intros Hx Hy Hxa Hya Hxb Hyb.
  unfold collision_point_triangle.
  assert (Hdx := SFsub_diag_zero x2 Hx). assert (Hdy := SFsub_diag_zero y2 Hy).
  assert (Hu : is_zero ((x2 - x2) * syb2 - (y2 - y2) * sxb2) = true)
    by (apply SFsub_zero_zero; now apply SFmul_zero_finite).
  assert (Hv : is_zero ((x2 - x2) * sya2 - (y2 - y2) * sxa2) = true)
    by (apply SFsub_zero_zero; now apply SFmul_zero_finite).
  cbv zeta.
  rewrite !fraction_between_zero_and_one_zero; auto.
  now apply SFsub_zero_zero.
Qed.

Lemma point_triangle_base_vertex_witness :
  collision_point_triangle (of_Z 2) (of_Z 1) (of_Z 2) (of_Z 1)
                           (of_Z 1) (of_Z 1) (of_Z 3) (of_Z 3) = true.
Proof. apply point_triangle_base_vertex; reflexivity. Defined.

(** *** A segment of length zero *)

(** C1, refuted as stated: the segment at the origin with zero displacement
    collides with the point [(1, 0)], which is not its origin. *)
Lemma zero_length_segment_not_point :
  collision_point_line (of_Z 1) (of_Z 0) (of_Z 0) (of_Z 0) zero zero = true
  /\ collision_point_point (of_Z 1) (of_Z 0) (of_Z 0) (of_Z 0) = false.
Proof. vm_compute. auto. Qed.

Lemma zero_displacement_accepts_finite (x1 y1 x2 y2 : float32) (sdx sdy : bool) :
  collision_point_line x1 y1 x2 y2 (S754_zero sdx) (S754_zero sdy)
  = is_finite (x1 - x2) && is_finite (y1 - y2).
Proof.
  unfold collision_point_line. f32.
  destruct (SFsub prec32 emax32 x1 x2) as [[]|[]| |[] mx ex],
           (SFsub prec32 emax32 y1 y2) as [[]|[]| |[] my ey];
    destruct sdx, sdy; reflexivity.
Qed.

(** C1, amended: with a zero displacement [collision_point_line] accepts
    exactly the points whose coordinate differences to the origin are finite.
    For finite coordinates it therefore holds wherever
    [collision_point_point] against the origin holds, but not only there. *)
Theorem point_line_zero_displacement (x1 y1 x2 y2 : float32) :
  collision_point_line x1 y1 x2 y2 zero zero
  = is_finite (x1 - x2) && is_finite (y1 - y2)
  /\ (is_finite x1 = true -> is_finite y1 = true ->
      collision_point_point x1 y1 x2 y2 = true ->
      collision_point_line x1 y1 x2 y2 zero zero = true).
Proof.
  split; [apply zero_displacement_accepts_finite|].
  intros Hx Hy Hpp.
  unfold zero at 1 2; cbn [float32_scalar].
  rewrite zero_displacement_accepts_finite.
  unfold collision_point_point in Hpp. f32.
  apply andb_true_iff in Hpp as [Hxx Hyy].
  apply (SFsub_eq_zero _ _ Hx) in Hxx. apply (SFsub_eq_zero _ _ Hy) in Hyy.
  destruct (SFsub prec32 emax32 x1 x2), (SFsub prec32 emax32 y1 y2);
    try discriminate; reflexivity.
Qed.

Lemma point_line_zero_displacement_witness :
  (is_finite (of_Z 3) = true /\ is_finite (of_Z 4) = true
   /\ collision_point_point (of_Z 3) (of_Z 4) (of_Z 3) (of_Z 4) = true)
  /\ collision_point_line (of_Z 3) (of_Z 4) (of_Z 3) (of_Z 4) zero zero = true.
Proof.
  split; [repeat split|].
  apply (proj2 (point_line_zero_displacement (of_Z 3) (of_Z 4) (of_Z 3) (of_Z 4)));
    reflexivity.
Defined.

(** *** Totality *)

Section Totality.
Context {T : Type} {S : Scalar T}.

Lemma minmax_list_nonempty (L : Less T) (x : T) (l : list T) :
  exists lo hi, minmax_list (x :: l) = Some (lo, hi).
Proof.
  destruct l as [|y l]; cbn [minmax_list]; [now exists x, x|].
  destruct (if ltb y x then minmax_from y x l else minmax_from x y l) as [lo hi].
  now exists lo, hi.
Qed.

Lemma overlap_nonempty (L : Less T) (x y : T) (l1 l2 : list T) :
  exists b, overlap (x :: l1) (y :: l2) = Some b.
Proof.
  unfold overlap.
  destruct (minmax_list_nonempty L x l1) as (lo1 & hi1 & ->).
  destruct (minmax_list_nonempty L y l2) as (lo2 & hi2 & ->).
  eauto.
Qed.

Ltac total_steps :=
  repeat match goal with
  | |- context [overlap (?a :: ?l1) (?b :: ?l2)] =>
      let o := fresh "o" in
      destruct (overlap_nonempty _ a b l1 l2) as [o ->]
  | |- context [if ?c then _ else _] => destruct c
  end; eauto.

Lemma line_circle_total (x1 y1 dx1 dy1 x2 y2 r2 : T) :
  exists b, collision_line_circle x1 y1 dx1 dy1 x2 y2 r2 = Some b.
Proof. unfold collision_line_circle. cbv zeta. total_steps. Qed.

Lemma line_triangle_total (x1 y1 dx1 dy1 x2 y2 sxa2 sya2 sxb2 syb2 : T) :
  exists b, collision_line_triangle x1 y1 dx1 dy1 x2 y2 sxa2 sya2 sxb2 syb2 = Some b.
Proof. unfold collision_line_triangle. cbv zeta. total_steps. Qed.

Lemma circle_box_total (x1 y1 r1 x2 y2 w2 h2 : T) :
  exists b, collision_circle_box x1 y1 r1 x2 y2 w2 h2 = Some b.
Proof. unfold collision_circle_box. cbv zeta. total_steps. Qed.

Lemma circle_triangle_total (x1 y1 r1 x2 y2 sxa2 sya2 sxb2 syb2 : T) :
  exists b, collision_circle_triangle x1 y1 r1 x2 y2 sxa2 sya2 sxb2 syb2 = Some b.
Proof. unfold collision_circle_triangle. cbv zeta. total_steps. Qed.
End Totality.

(** C7, refuted as stated: the helper [overlap] is a function of the
    header, and on an empty list it has no result, [std::minmax] of an empty
    initializer list being undefined. *)
Lemma overlap_empty_list_no_result :
  @overlap float32 _ [] [of_Z 0; of_Z 1] = None.
Proof. reflexivity. Qed.

(** C7, amended: the only call that can fail is [overlap] with an empty
    list.  [overlap] has no result exactly when one of its two lists is
    empty; the four routines that call it pass non-empty lists only and
    yield a boolean for every input.  The other nine routines and the other
    helpers are functions into [bool] (or [T]) and yield a value for every
    input.  All of this holds for every scalar type [T] that offers only
    the operators of [Scalar], among which there is no division; at
    [float32] the inputs include NaN, the infinities and degenerate
    shapes. *)
Theorem routines_total (T : Type) (S : Scalar T) :
  (forall interval_1 interval_2 : list T,
      overlap interval_1 interval_2 = None
      <-> interval_1 = [] \/ interval_2 = [])
  /\ (forall x1 y1 dx1 dy1 x2 y2 r2 : T,
      exists b, collision_line_circle x1 y1 dx1 dy1 x2 y2 r2 = Some b)
  /\ (forall x1 y1 dx1 dy1 x2 y2 sxa2 sya2 sxb2 syb2 : T,
      exists b,
        collision_line_triangle x1 y1 dx1 dy1 x2 y2 sxa2 sya2 sxb2 syb2 = Some b)
  /\ (forall x1 y1 r1 x2 y2 w2 h2 : T,
      exists b, collision_circle_box x1 y1 r1 x2 y2 w2 h2 = Some b)
  /\ (forall x1 y1 r1 x2 y2 sxa2 sya2 sxb2 syb2 : T,
      exists b,
        collision_circle_triangle x1 y1 r1 x2 y2 sxa2 sya2 sxb2 syb2 = Some b)
  /\ (forall x1 y1 x2 y2 dx1 dy1 dx2 dy2 r1 r2 w1 h1 w2 h2 sxa2 sya2 sxb2 syb2 : T,
      exists b1 b2 b3 b4 b5 b6 b7 b8 b9 : bool,
        collision_point_point x1 y1 x2 y2 = b1
        /\ collision_point_line x1 y1 x2 y2 dx2 dy2 = b2
        /\ collision_point_circle x1 y1 x2 y2 r2 = b3
        /\ collision_point_box x1 y1 x2 y2 w2 h2 = b4
        /\ collision_point_triangle x1 y1 x2 y2 sxa2 sya2 sxb2 syb2 = b5
        /\ collision_line_line x1 y1 dx1 dy1 x2 y2 dx2 dy2 = b6
        /\ collision_line_box x1 y1 dx1 dy1 x2 y2 w2 h2 = b7
        /\ collision_circle_circle x1 y1 r1 x2 y2 r2 = b8
        /\ collision_box_box x1 y1 w1 h1 x2 y2 w2 h2 = b9)
  /\ (forall value border_1 border_2 nominator denominator : T,
      exists (b1 b2 b3 : bool) (v1 v2 : T),
        between value border_1 border_2 = b1
        /\ fraction_less_than_zero nominator denominator = b2
        /\ fraction_between_zero_and_one nominator denominator = b3
        /\ constexpr_abs value = v1
        /\ sign_square value = v2).
Proof.
  split; [|repeat split; intros].
  - intros l1 l2. split.
    + intros H. destruct l1 as [|x l1]; [now left|].
      destruct l2 as [|y l2]; [now right|].
      destruct (overlap_nonempty _ x y l1 l2) as [b Hb]. congruence.
    + intros [->| ->]; unfold overlap; [reflexivity|].
      destruct (minmax_list l1) as [[? ?]|]; reflexivity.
  - apply line_circle_total.
  - apply line_triangle_total.
  - apply circle_box_total.
  - apply circle_triangle_total.
  - repeat eexists.
  - repeat eexists.
Qed.

(** *** The fraction tests *)

Section FractionContract.
Local Open Scope Z_scope.

Lemma prec32_pos : 0 < prec32.
Proof. reflexivity. Qed.

Notation "'sc'" := (scaled prec32 emax32).

Lemma scaled_zero_iff (x : float32) :
  is_float32 x = true -> is_finite x = true ->
  (sc x = 0 <-> is_zero x = true).
Proof.
  destruct x as [sx|sx| |s m e]; try discriminate; intros V _.
  - simpl; tauto.
  - apply bounded_inv in V as [C _].
    apply canonical_mantissa_inv in C as (Hmin & _).
    pose proof (scaled_magnitude_pos prec32 emax32 m e Hmin).
    unfold scaled. destruct s; cbn [cond_Zopp is_zero]; split;
      try discriminate; lia.
Qed.

Lemma constexpr_abs_scaled (x : float32) :
  is_finite x = true ->
  is_float32 (constexpr_abs x) = is_float32 x
  /\ is_finite (constexpr_abs x) = true
  /\ sc (constexpr_abs x) = Z.abs (sc x).
Proof.
  destruct x as [[]|[]| |[] m e]; try discriminate; intros _;
    (split; [reflexivity|]); (split; [reflexivity|]);
    try reflexivity; cbv [constexpr_abs]; f32;
    cbn [SFltb SFcompare SFopp negb scaled cond_Zopp].
  - assert (0 <= Z.pos m * 2 ^ (e - emin prec32 emax32))
      by (apply Z.mul_nonneg_nonneg; [lia | apply Z.pow_nonneg; lia]).
    lia.
  - assert (0 <= Z.pos m * 2 ^ (e - emin prec32 emax32))
      by (apply Z.mul_nonneg_nonneg; [lia | apply Z.pow_nonneg; lia]).
    lia.
Qed.

(** The two helpers, read on the numbers their arguments denote. *)
Lemma fraction_less_than_zero_scaled (n d : float32) :
  is_float32 n = true -> is_float32 d = true ->
  is_finite n = true -> is_finite d = true ->
  fraction_less_than_zero n d
  = negb (sc n =? 0) && negb (Bool.eqb (sc n <? 0) (sc d <? 0)).
Proof.
  intros Vn Vd Fn Fd. unfold fraction_less_than_zero. f32.
  rewrite (SFeqb_scaled prec32 emax32 prec32_pos n (S754_zero false)),
          (SFltb_scaled prec32 emax32 prec32_pos n (S754_zero false)),
          (SFltb_scaled prec32 emax32 prec32_pos d (S754_zero false))
    by auto.
  cbn [scaled].
  destruct (sc n =? 0), (Bool.eqb (sc n <? 0) (sc d <? 0)); reflexivity.
Qed.

Lemma fraction_between_zero_and_one_scaled (n d : float32) :
  is_float32 n = true -> is_float32 d = true ->
  is_finite n = true -> is_finite d = true ->
  fraction_between_zero_and_one n d
  = negb (fraction_less_than_zero n d) && (Z.abs (sc n) <=? Z.abs (sc d)).
Proof.
  intros Vn Vd Fn Fd.
  destruct (constexpr_abs_scaled n Fn) as (Van & Fan & San).
  destruct (constexpr_abs_scaled d Fd) as (Vad & Fad & Sad).
  unfold fraction_between_zero_and_one. f32.
  rewrite (SFltb_scaled prec32 emax32 prec32_pos
             (constexpr_abs d) (constexpr_abs n))
    by (auto; unfold is_float32 in *; congruence).
  rewrite San, Sad, Z.ltb_antisym.
  destruct (fraction_less_than_zero n d), (Z.abs (sc n) <=? Z.abs (sc d));
    reflexivity.
Qed.

Lemma SFleb_scaled (x y : float32) :
  is_float32 x = true -> is_float32 y = true ->
  is_finite x = true -> is_finite y = true ->
  SFleb x y = (sc x <=? sc y).
Proof.
  intros Vx Vy Fx Fy. unfold SFleb, Z.leb.
  rewrite (SFcompare_scaled prec32 emax32 prec32_pos x y Vx Vy Fx Fy).
  now destruct (sc x ?= sc y).
Qed.

Lemma Qdiv_common_factor (a b k : Q) :
  (~ b == 0 -> ~ k == 0 -> (a * k) / (b * k) == a / b)%Q.
Proof. intros Hb Hk. field. split; assumption. Qed.

Lemma SF2Q_quotient (n d : float32) :
  is_float32 n = true -> is_float32 d = true ->
  is_finite n = true -> is_finite d = true -> is_zero d = false ->
  (SF2Q n / SF2Q d == inject_Z (sc n) / inject_Z (sc d))%Q.
Proof.
  intros Vn Vd Fn Fd Zd.
  rewrite (SF2Q_scaled prec32 emax32 n Vn Fn), (SF2Q_scaled prec32 emax32 d Vd Fd).
  apply Qdiv_common_factor.
  - intros H. assert (Hd : sc d = 0) by (revert H; unfold Qeq, inject_Z; simpl; lia).
    apply (scaled_zero_iff d Vd Fd) in Hd. congruence.
  - apply Qpower_not_0. discriminate.
Qed.
End FractionContract.

(** C3, refuted as stated: a NaN nominator, which denotes no fraction, passes
    the test over the denominator [1]; and the answer there is not
    "not [fraction_less_than_zero] and [|n| <= |d|]", since the code tests
    "not [|n| > |d|]" and both comparisons are false on NaN. *)
Lemma nan_nominator_passes_fraction_test :
  fraction_between_zero_and_one S754_nan (of_Z 1) = true
  /\ is_finite S754_nan = false
  /\ negb (fraction_less_than_zero S754_nan (of_Z 1))
     && (constexpr_abs S754_nan <= constexpr_abs (of_Z 1)) = false.
Proof. vm_compute. auto. Qed.

(** C3, amended: on the finite floats (neither NaN nor an infinity), with a
    non-zero denominator, [fraction_between_zero_and_one n d] holds exactly
    when the exact quotient of the numbers denoted lies in [[0, 1]]; it is
    decided, without dividing, as "not [fraction_less_than_zero] and
    [|n| <= |d|]"; and for a zero nominator over a zero denominator it
    answers (true). *)
Theorem fraction_between_zero_and_one_contract (n d : float32) :
  is_float32 n = true -> is_float32 d = true ->
  is_finite n = true -> is_finite d = true ->
  (is_zero d = false ->
   (fraction_between_zero_and_one n d = true <-> (0 <= SF2Q n / SF2Q d <= 1)%Q))
  /\ fraction_between_zero_and_one n d
     = negb (fraction_less_than_zero n d) && (constexpr_abs n <= constexpr_abs d)
  /\ (is_zero n = true -> is_zero d = true ->
      fraction_between_zero_and_one n d = true).
Proof.
  intros Vn Vd Fn Fd.
  pose proof (fraction_between_zero_and_one_scaled n d Vn Vd Fn Fd) as Hfb.
  pose proof (fraction_less_than_zero_scaled n d Vn Vd Fn Fd) as Hfl.
  split; [|split].
  - intros Zd.
    assert (Hd : scaled prec32 emax32 d <> 0%Z)
      by (intros H; apply (scaled_zero_iff d Vd Fd) in H; congruence).
    rewrite (SF2Q_quotient n d Vn Vd Fn Fd Zd), Qdiv_Z_unit_interval by exact Hd.
    rewrite Hfb, Hfl.
    destruct (Z.eqb_spec (scaled prec32 emax32 n) 0),
             (Z.ltb_spec (scaled prec32 emax32 n) 0),
             (Z.ltb_spec (scaled prec32 emax32 d) 0),
             (Z.leb_spec (Z.abs (scaled prec32 emax32 n))
                         (Z.abs (scaled prec32 emax32 d)));
      cbn; split; intros; try discriminate; try reflexivity; lia.
  - destruct (constexpr_abs_scaled n Fn) as (Van & Fan & San).
    destruct (constexpr_abs_scaled d Fd) as (Vad & Fad & Sad).
    rewrite Hfb. f_equal.
    change (constexpr_abs n <= constexpr_abs d)
      with (SFleb (constexpr_abs n) (constexpr_abs d)).
    rewrite SFleb_scaled by congruence.
    now rewrite San, Sad.
  - intros Zn _. now apply fraction_between_zero_and_one_zero.
Qed.

Lemma fraction_between_zero_and_one_contract_witness :
  (is_float32 (of_Z 1) = true /\ is_float32 (of_Z 3) = true
   /\ is_finite (of_Z 1) = true /\ is_finite (of_Z 3) = true
   /\ is_zero (of_Z 3) = false)
  /\ (fraction_between_zero_and_one (of_Z 1) (of_Z 3) = true
      <-> (0 <= SF2Q (of_Z 1) / SF2Q (of_Z 3) <= 1)%Q).
Proof.
  split; [repeat split|].
  apply (proj1 (fraction_between_zero_and_one_contract (of_Z 1) (of_Z 3)
                  eq_refl eq_refl eq_refl eq_refl)).
  reflexivity.
Defined.

(** *** A box against itself *)

(** C4, refuted as stated: a box with a negative extent does not collide
    with itself. *)
Lemma negative_extent_not_reflexive :
  collision_box_box (of_Z 0) (of_Z 0) (of_Z (-1)) (of_Z 2)
                    (of_Z 0) (of_Z 0) (of_Z (-1)) (of_Z 2) = false.
Proof. vm_compute. reflexivity. Qed.

(** C4, amended: every box whose extents are not negative collides with
    itself, wherever it lies (also at an infinite or NaN origin, and with
    infinite extents). *)
Theorem box_box_reflexive (x y w h : float32) :
  is_float32 x = true -> is_float32 y = true ->
  is_float32 w = true -> is_float32 h = true ->
  (zero <= w) = true -> (zero <= h) = true ->
  collision_box_box x y w h x y w h = true.
Proof.
  intros Vx Vy Vw Vh Hw Hh.
  unfold collision_box_box. f32.
  rewrite (SFadd_nonneg_not_below prec32 emax32 eq_refl x w Vx Vw Hw).
  rewrite (SFadd_nonneg_not_below prec32 emax32 eq_refl y h Vy Vh Hh).
  reflexivity.
Qed.

Lemma box_box_reflexive_witness :
  (is_float32 (of_Z 1) = true /\ is_float32 (of_Z 2) = true
   /\ is_float32 (of_Z 3) = true /\ is_float32 (of_Z 4) = true
   /\ (zero <= of_Z 3) = true /\ (zero <= of_Z 4) = true)
  /\ collision_box_box (of_Z 1) (of_Z 2) (of_Z 3) (of_Z 4)
                       (of_Z 1) (of_Z 2) (of_Z 3) (of_Z 4) = true.
Proof.
  split; [repeat split|].
  apply box_box_reflexive; reflexivity.
Defined.

(** ** Further properties of the helpers and routines *)

(** *** The order of the floats that are not NaN *)

Section FloatTotalOrder.
Local Open Scope Z_scope.

Lemma SFltb_ord (x y : spec_float) :
  is_nan x = false -> is_nan y = false ->
  (SFltb x y = true <-> lex_lt (ord x) (ord y)).
Proof.
  destruct x as [sx|[]| |[] mx ex], y as [sy|[]| |[] my ey];
    try discriminate; intros _ _;
    unfold SFltb, SFcompare, lex_lt, ord; cbn [fst snd];
    try (split; [discriminate | lia]); try (split; [reflexivity | lia]);
    try (split; [intros _; lia | reflexivity]);
    rewrite Pos.compare_cont_spec; unfold Pos.switch_Eq;
    destruct (Z.compare_spec ex ey); destruct (Pos.compare_spec mx my);
    cbn [CompOpp]; split; try discriminate; try reflexivity; lia.
Qed.

Lemma SFleb_not_ltb (x y : spec_float) :
  is_nan x = false -> is_nan y = false -> SFleb x y = negb (SFltb y x).
Proof.
  destruct x as [sx|[]| |[] mx ex], y as [sy|[]| |[] my ey];
    try discriminate; intros _ _; try reflexivity;
    unfold SFleb, SFltb, SFcompare;
    rewrite !Pos.compare_cont_spec; unfold Pos.switch_Eq;
    rewrite (Z.compare_antisym ex ey), (Pos.compare_antisym mx my);
    destruct (ex ?= ey); destruct (mx ?= my)%positive; reflexivity.
Qed.

Lemma SFltb_false_trans (x y z : spec_float) :
  is_nan x = false -> is_nan y = false -> is_nan z = false ->
  SFltb y x = false -> SFltb z y = false -> SFltb z x = false.
Proof.
  intros Nx Ny Nz Hxy Hyz.
  apply not_true_is_false. rewrite (SFltb_ord z x Nz Nx).
  apply not_true_iff_false in Hxy, Hyz.
  rewrite (SFltb_ord y x Ny Nx) in Hxy. rewrite (SFltb_ord z y Nz Ny) in Hyz.
  unfold lex_lt in *.
  destruct (ord x) as [[? ?] ?], (ord y) as [[? ?] ?], (ord z) as [[? ?] ?].
  cbn [fst snd] in *. lia.
Qed.

Lemma SFltb_le_trans (x y z : spec_float) :
  is_nan x = false -> is_nan y = false -> is_nan z = false ->
  SFltb x y = true -> SFltb z y = false -> SFltb x z = true.
Proof.
  intros Nx Ny Nz Hxy Hyz.
  rewrite (SFltb_ord x z Nx Nz).
  rewrite (SFltb_ord x y Nx Ny) in Hxy.
  apply not_true_iff_false in Hyz. rewrite (SFltb_ord z y Nz Ny) in Hyz.
  unfold lex_lt in *.
  destruct (ord x) as [[? ?] ?], (ord y) as [[? ?] ?], (ord z) as [[? ?] ?].
  cbn [fst snd] in *. lia.
Qed.

Lemma SFle_ltb_trans (x y z : spec_float) :
  is_nan x = false -> is_nan y = false -> is_nan z = false ->
  SFltb y x = false -> SFltb y z = true -> SFltb x z = true.
Proof.
  intros Nx Ny Nz Hxy Hyz.
  rewrite (SFltb_ord x z Nx Nz).
  rewrite (SFltb_ord y z Ny Nz) in Hyz.
  apply not_true_iff_false in Hxy. rewrite (SFltb_ord y x Ny Nx) in Hxy.
  unfold lex_lt in *.
  destruct (ord x) as [[? ?] ?], (ord y) as [[? ?] ?], (ord z) as [[? ?] ?].
  cbn [fst snd] in *. lia.
Qed.

Lemma SFltb_asym (x y : spec_float) : SFltb x y = true -> SFltb y x = false.
Proof.
  intros H.
  assert (Nx : is_nan x = false) by (destruct x; try reflexivity; discriminate).
  assert (Ny : is_nan y = false)
    by (destruct y; try reflexivity; destruct x as [|[]| |[]]; discriminate).
  apply not_true_is_false. rewrite (SFltb_ord y x Ny Nx).
  rewrite (SFltb_ord x y Nx Ny) in H.
  unfold lex_lt in *.
  destruct (ord x) as [[? ?] ?], (ord y) as [[? ?] ?]. cbn [fst snd] in *. lia.
Qed.
End FloatTotalOrder.

(** Decides a goal from comparisons of floats that are not NaN. *)
Ltac ord_facts :=
  repeat match goal with
  | H : SFltb ?a ?b = true |- _ =>
      rewrite (SFltb_ord a b) in H by assumption
  | H : SFltb ?a ?b = false |- _ =>
      apply not_true_iff_false in H; rewrite (SFltb_ord a b) in H by assumption
  end.

Ltac ord_lia :=
  unfold lex_lt in *;
  repeat match goal with
  | H : context [ord ?x] |- _ => destruct (ord x) as [[? ?] ?]
  | |- context [ord ?x] => destruct (ord x) as [[? ?] ?]
  end;
  cbn [fst snd] in *; lia.

(** *** [between] and [overlap] *)

(** X1: on floats that are not NaN, [between value border_1 border_2] is
    membership in the closed interval spanned by the two borders, given in
    either order. *)
Theorem between_closed_interval (value border_1 border_2 : float32) :
  is_nan value = false -> is_nan border_1 = false -> is_nan border_2 = false ->
  between value border_1 border_2
  = ((border_1 <= value) && (value <= border_2))
    || ((border_2 <= value) && (value <= border_1)).
Proof.
  intros Nv N1 N2. unfold between, minmax. f32.
  rewrite !SFleb_not_ltb by assumption.
  destruct (SFltb border_2 border_1) eqn:H21, (SFltb value border_2) eqn:Hv2,
           (SFltb border_1 value) eqn:H1v, (SFltb value border_1) eqn:Hv1,
           (SFltb border_2 value) eqn:H2v;
    cbn [fst snd negb andb orb]; try rewrite Hv2; try rewrite H1v;
    try rewrite Hv1; try rewrite H2v; try reflexivity;
    exfalso; ord_facts; ord_lia.
Qed.

(** X2: [overlap] does not depend on the order of its two arguments, for
    every element type and lists of any length. *)
Theorem overlap_symmetric (T : Type) (L : Less T) (interval_1 interval_2 : list T) :
  overlap interval_1 interval_2 = overlap interval_2 interval_1.
Proof.
  unfold overlap.
  destruct (minmax_list interval_1) as [[lo1 hi1]|],
           (minmax_list interval_2) as [[lo2 hi2]|]; try reflexivity.
  cbn [fst snd]. now destruct (hi2 < lo1), (hi1 < lo2).
Qed.

(** Induction over a list taken two elements at a time, as the loop of
    [std::minmax] takes it. *)
Lemma list_pair_ind (A : Type) (P : list A -> Prop) :
  P [] -> (forall x, P [x]) -> (forall x y l, P l -> P (x :: y :: l)) ->
  forall l, P l.
Proof.
  intros H0 H1 H2 l.
  assert (H : P l /\ forall x, P (x :: l)); [|exact (proj1 H)].
  induction l as [|y l [IH1 IH2]]; split; auto.
Qed.

(** Decides a comparison of floats that are not NaN from the comparisons
    among the hypotheses. *)
Ltac ord_solve :=
  match goal with
  | |- SFltb ?a ?b = _ =>
      let G := fresh "G" in
      destruct (SFltb a b) eqn:G; try reflexivity; exfalso; ord_facts; ord_lia
  end.

(** What the loop of [std::minmax] returns on floats that are not NaN, when
    the minimum so far is not above the maximum so far: two elements, below
    and above all the others. *)
Lemma minmax_from_spec (l : list spec_float) :
  forall lo hi : spec_float,
    is_nan lo = false -> is_nan hi = false -> nan_free l ->
    SFltb hi lo = false ->
    In (fst (minmax_from (L := SFltb) lo hi l)) (lo :: l)
    /\ In (snd (minmax_from (L := SFltb) lo hi l)) (hi :: l)
    /\ SFltb lo (fst (minmax_from (L := SFltb) lo hi l)) = false
    /\ SFltb (snd (minmax_from (L := SFltb) lo hi l)) hi = false
    /\ (forall a, In a l ->
        SFltb a (fst (minmax_from (L := SFltb) lo hi l)) = false
        /\ SFltb (snd (minmax_from (L := SFltb) lo hi l)) a = false).
Proof.
  induction l as [|x|x y l IH] using list_pair_ind; intros lo hi Nlo Nhi Nl Hle.
  - cbn [minmax_from fst snd].
    split; [now left|]. split; [now left|].
    split; [apply SFltb_irrefl|]. split; [apply SFltb_irrefl|]. intros a [].
  - inversion Nl as [|? ? Nx _]; subst. cbn [minmax_from]. unfold ltb.
    destruct (SFltb x lo) eqn:E1; [|destruct (SFltb x hi) eqn:E2];
      cbn [negb fst snd];
      (split; [cbn [In]; tauto|]); (split; [cbn [In]; tauto|]);
      (split; [ord_solve|]); (split; [ord_solve|]);
      intros a [<-|[]]; split; ord_solve.
  - inversion Nl as [|? ? Nx Nl']; subst.
    inversion Nl' as [|? ? Ny Nl'']; subst.
    cbn [minmax_from]. unfold ltb.
    destruct (SFltb y x) eqn:E0;
      [destruct (SFltb y lo) eqn:E1, (SFltb x hi) eqn:E2
      |destruct (SFltb x lo) eqn:E1, (SFltb y hi) eqn:E2];
      cbn [negb];
      match goal with
      | |- context [minmax_from ?a ?b l] =>
          destruct (IH a b) as (Hlo & Hhi & Hl & Hh & Hall);
            [assumption | assumption | assumption | ord_solve | ];
          set (r := minmax_from a b l) in *;
          assert (Nfst : is_nan (fst r) = false)
            by (destruct Hlo as [<-|Hin]; [assumption|];
                unfold nan_free in Nl''; rewrite Forall_forall in Nl'';
                now apply Nl'');
          assert (Nsnd : is_nan (snd r) = false)
            by (destruct Hhi as [<-|Hin]; [assumption|];
                unfold nan_free in Nl''; rewrite Forall_forall in Nl'';
                now apply Nl'')
      end;
      (split; [cbn [In] in *; tauto|]); (split; [cbn [In] in *; tauto|]);
      (split; [ord_solve|]); (split; [ord_solve|]);
      (intros a [<-|[<-|Hin]]; [split; ord_solve | split; ord_solve | now apply Hall]).
Qed.

(** What [std::minmax] returns on a non-empty list of floats that are not
    NaN: two elements of the list, below and above all the others. *)
Lemma minmax_list_spec (x : spec_float) (l : list spec_float) :
  nan_free (x :: l) ->
  exists lo hi,
    minmax_list (L := SFltb) (x :: l) = Some (lo, hi)
    /\ In lo (x :: l) /\ In hi (x :: l)
    /\ (forall a, In a (x :: l) -> SFltb a lo = false)
    /\ (forall a, In a (x :: l) -> SFltb hi a = false).
Proof.
  intros N. inversion N as [|? ? Nx Nl]; subst.
  destruct l as [|y l].
  - exists x, x. cbn [minmax_list In].
    split; [reflexivity|]. split; [tauto|]. split; [tauto|].
    split; intros a [<-|[]]; apply SFltb_irrefl.
  - inversion Nl as [|? ? Ny Nl']; subst. cbn [minmax_list]. unfold ltb.
    destruct (SFltb y x) eqn:E0;
      match goal with
      | |- context [minmax_from ?a ?b l] =>
          destruct (minmax_from_spec l a b) as (Hlo & Hhi & Hl & Hh & Hall);
            [assumption | assumption | assumption | ord_solve | ];
          set (r := minmax_from a b l) in *;
          assert (Nfst : is_nan (fst r) = false)
            by (destruct Hlo as [<-|Hin]; [assumption|];
                unfold nan_free in Nl'; rewrite Forall_forall in Nl';
                now apply Nl');
          assert (Nsnd : is_nan (snd r) = false)
            by (destruct Hhi as [<-|Hin]; [assumption|];
                unfold nan_free in Nl'; rewrite Forall_forall in Nl';
                now apply Nl')
      end;
      exists (fst r), (snd r); (split; [now destruct r|]);
      (split; [cbn [In] in *; tauto|]); (split; [cbn [In] in *; tauto|]);
      split; (intros a [<-|[<-|Hin]]; [ord_solve | ord_solve | now apply Hall]).
Qed.

(** X3: on non-empty lists of floats that are not NaN, [overlap] answers
    false exactly when the two lists are separated: every element of one
    list is strictly below every element of the other. *)
Theorem overlap_false_iff_separated (x y : float32) (l1 l2 : list float32) :
  nan_free (x :: l1) -> nan_free (y :: l2) ->
  (overlap (x :: l1) (y :: l2) = Some false <->
   (forall a b, In a (x :: l1) -> In b (y :: l2) -> (b < a) = true)
   \/ (forall a b, In a (x :: l1) -> In b (y :: l2) -> (a < b) = true)).
Proof.
  intros N1 N2. unfold overlap.
  destruct (minmax_list_spec x l1 N1) as (lo1 & hi1 & E1 & Hlo1 & Hhi1 & Hmin1 & Hmax1).
  destruct (minmax_list_spec y l2 N2) as (lo2 & hi2 & E2 & Hlo2 & Hhi2 & Hmin2 & Hmax2).
  change (minmax_list (x :: l1) = Some (lo1, hi1)) in E1.
  change (minmax_list (y :: l2) = Some (lo2, hi2)) in E2.
  rewrite E1, E2. clear E1 E2.
  f32. unfold float32 in *.
  set (r1 := (lo1, hi1)) in *. set (r2 := (lo2, hi2)) in *.
  change lo1 with (fst r1) in Hlo1, Hmin1. change hi1 with (snd r1) in Hhi1, Hmax1.
  change lo2 with (fst r2) in Hlo2, Hmin2. change hi2 with (snd r2) in Hhi2, Hmax2.
  clearbody r1 r2.
  unfold nan_free in N1, N2. rewrite Forall_forall in N1, N2.
  assert (Nlo1 := N1 _ Hlo1). assert (Nhi1 := N1 _ Hhi1).
  assert (Nlo2 := N2 _ Hlo2). assert (Nhi2 := N2 _ Hhi2).
  split.
  - intros H.
    destruct (SFltb (snd r2) (fst r1)) eqn:T1.
    + left. intros a b Ha Hb.
      apply (SFltb_le_trans b (fst r1) a); auto.
      apply (SFle_ltb_trans b (snd r2) (fst r1)); auto.
    + destruct (SFltb (snd r1) (fst r2)) eqn:T2; [|discriminate].
      right. intros a b Ha Hb.
      apply (SFltb_le_trans a (fst r2) b); auto.
      apply (SFle_ltb_trans a (snd r1) (fst r2)); auto.
  - intros [H|H].
    + assert (T1 := H _ _ Hlo1 Hhi2).
      change (SFltb (snd r2) (fst r1) = true) in T1. now rewrite T1.
    + assert (T2 := H _ _ Hhi1 Hlo2).
      change (SFltb (snd r1) (fst r2) = true) in T2. rewrite T2.
      now destruct (SFltb (snd r2) (fst r1)).
Qed.

Lemma overlap_false_iff_separated_witness :
  (nan_free [of_Z 1; of_Z 3] /\ nan_free [of_Z 5; of_Z 4])
  /\ (overlap [of_Z 1; of_Z 3] [of_Z 5; of_Z 4] = Some false <->
      (forall a b, In a [of_Z 1; of_Z 3] -> In b [of_Z 5; of_Z 4] -> (b < a) = true)
      \/ (forall a b, In a [of_Z 1; of_Z 3] -> In b [of_Z 5; of_Z 4] -> (a < b) = true)).
Proof.
  assert (N1 : nan_free [of_Z 1; of_Z 3]) by (repeat constructor).
  assert (N2 : nan_free [of_Z 5; of_Z 4]) by (repeat constructor).
  split; [split; assumption|].
  exact (overlap_false_iff_separated (of_Z 1) (of_Z 5) [of_Z 3] [of_Z 4] N1 N2).
Defined.

Lemma between_closed_interval_witness :
  between (of_Z 2) (of_Z 3) (of_Z 1)
  = ((of_Z 3 <= of_Z 2) && (of_Z 2 <= of_Z 1))
    || ((of_Z 1 <= of_Z 2) && (of_Z 2 <= of_Z 3)).
Proof. apply between_closed_interval; reflexivity. Defined.

(** *** The sign helpers *)

Lemma Qdiv_Z_negative (a b : Z) :
  b <> 0%Z ->
  (inject_Z a / inject_Z b < 0)%Q <-> ((a < 0 /\ 0 < b) \/ (b < 0 /\ 0 < a))%Z.
Proof.
  intros Hb. destruct b as [|b|b]; [contradiction| |];
    unfold Qdiv, Qinv, Qmult, Qlt, inject_Z; simpl; lia.
Qed.

(** X4: on finite floats with a non-zero denominator,
    [fraction_less_than_zero n d] holds exactly when the exact quotient of
    the numbers denoted is negative; and a zero nominator is never "less
    than zero", whatever the denominator is (a zero, an infinity or NaN
    included). *)
Theorem fraction_less_than_zero_contract (n d : float32) :
  is_float32 n = true -> is_float32 d = true ->
  is_finite n = true -> is_finite d = true ->
  (is_zero d = false ->
   (fraction_less_than_zero n d = true <-> (SF2Q n / SF2Q d < 0)%Q))
  /\ (is_zero n = true -> forall d' : float32, fraction_less_than_zero n d' = false).
Proof.
  intros Vn Vd Fn Fd. split.
  - intros Zd.
    assert (Hd : scaled prec32 emax32 d <> 0%Z)
      by (intros H; apply (scaled_zero_iff d Vd Fd) in H; congruence).
    rewrite (SF2Q_quotient n d Vn Vd Fn Fd Zd), Qdiv_Z_negative by exact Hd.
    rewrite (fraction_less_than_zero_scaled n d Vn Vd Fn Fd).
    destruct (Z.eqb_spec (scaled prec32 emax32 n) 0),
             (Z.ltb_spec (scaled prec32 emax32 n) 0),
             (Z.ltb_spec (scaled prec32 emax32 d) 0);
      cbn; split; intros; try discriminate; try reflexivity; lia.
  - intros Zn d'. destruct n as [s| | |]; try discriminate.
    unfold fraction_less_than_zero. f32. reflexivity.
Qed.

Lemma fraction_less_than_zero_contract_witness :
  (is_float32 (of_Z (-1)) = true /\ is_float32 (of_Z 3) = true
   /\ is_finite (of_Z (-1)) = true /\ is_finite (of_Z 3) = true
   /\ is_zero (of_Z 3) = false)
  /\ (fraction_less_than_zero (of_Z (-1)) (of_Z 3) = true
      <-> (SF2Q (of_Z (-1)) / SF2Q (of_Z 3) < 0)%Q).
Proof.
  split; [repeat split|].
  apply (proj1 (fraction_less_than_zero_contract (of_Z (-1)) (of_Z 3)
                  eq_refl eq_refl eq_refl eq_refl)).
  reflexivity.
Defined.

(** X5: [constexpr_abs] is the IEEE absolute value, except on the negative
    zero, which it returns unchanged (it is not below zero); its result is
    never below zero. *)
Theorem constexpr_abs_is_fabs (value : float32) :
  constexpr_abs value
  = match value with S754_zero true => value | _ => SFabs value end
  /\ (constexpr_abs value < zero) = false.
Proof.
  split; [|apply constexpr_abs_nonnegative].
  float_cases value; reflexivity.
Qed.

Lemma binary_round_aux_sign (s : bool) (m e : Z) (l : location) :
  match binary_round_aux prec32 emax32 s m e l with
  | S754_zero s' | S754_infinity s' | S754_finite s' _ _ => s' = s
  | S754_nan => True
  end.
Proof.
  unfold binary_round_aux.
  destruct (shr_fexp prec32 emax32 m e l) as [mrs' e'].
  destruct (shr_fexp prec32 emax32 _ e' loc_Exact) as [mrs'' e''].
  destruct (shr_m mrs''); auto.
  now destruct (e'' <=? emax32 - prec32)%Z.
Qed.

(** The sign of a product is the product of the signs, also when the
    product underflows to a zero or overflows to an infinity. *)
Lemma SFmul_sign (x y : spec_float) :
  (is_negative x = negb (is_negative y) -> is_positive (SFmul prec32 emax32 x y) = false)
  /\ (is_negative x = false -> is_negative y = false ->
      is_negative (SFmul prec32 emax32 x y) = false)
  /\ (is_negative x = true -> is_negative y = true ->
      is_negative (SFmul prec32 emax32 x y) = false).
Proof.
  destruct x as [sx|sx| |sx mx ex], y as [sy|sy| |sy my ey];
    cbn [SFmul is_negative is_positive];
    try (destruct sx, sy; repeat split; intros; try discriminate; reflexivity);
    try (destruct sx; repeat split; intros; try discriminate; reflexivity);
    try (destruct sy; repeat split; intros; try discriminate; reflexivity);
    try (repeat split; intros; reflexivity).
  pose proof (binary_round_aux_sign (xorb sx sy) (Z.pos (mx * my)) (ex + ey) loc_Exact)
    as Hs.
  destruct (binary_round_aux prec32 emax32 (xorb sx sy) (Z.pos (mx * my)) (ex + ey)
              loc_Exact) as [s'|s'| |s' m' e'];
    try subst s'; destruct sx, sy; repeat split; intros; try discriminate;
    reflexivity.
Qed.

(** X6: [sign_square] is an odd function, and its result never has the sign
    opposite to its argument's: the square of a float below zero is not
    above zero, the square of any other float is not below zero (the square
    may round to a zero or to an infinity). *)
Theorem sign_square_sign (x : float32) :
  zeq (sign_square (- x)) (- sign_square x)
  /\ ((x < zero) = true -> (zero < sign_square x) = false)
  /\ ((x < zero) = false -> (sign_square x < zero) = false).
Proof.
  unfold sign_square. f32.
  assert (Hneg : forall y, SFltb y (S754_zero false) = is_negative y)
    by (intros y; float_cases y; reflexivity).
  assert (Hpos : forall y, SFltb (S754_zero false) y = is_positive y)
    by (intros y; float_cases y; reflexivity).
  rewrite !Hneg, !Hpos. repeat split.
  - destruct (is_negative x) eqn:Hx, (is_negative (SFopp x)) eqn:Hox.
    + float_cases x; discriminate.
    + rewrite SFmul_opp_opp, SFmul_opp_l, SFopp_involutive. reflexivity.
    + rewrite SFopp_involutive, (SFmul_comm _ _ x (SFopp x)), SFmul_opp_l.
      reflexivity.
    + destruct x as [sx|[]| |[] mx ex]; try discriminate; simpl; auto.
  - intros Hx. rewrite Hx. apply (proj1 (SFmul_sign (SFopp x) x)).
    float_cases x; try discriminate; reflexivity.
  - intros Hx. rewrite Hx. now apply (proj1 (proj2 (SFmul_sign x x))).
Qed.

Lemma sign_square_sign_witness :
  ((of_Z (-3) < zero) = true /\ (of_Z 3 < zero) = false)
  /\ (zero < sign_square (of_Z (-3))) = false
  /\ (sign_square (of_Z 3) < zero) = false.
Proof.
  split; [split; reflexivity|]. split.
  - apply (proj1 (proj2 (sign_square_sign (of_Z (-3))))). reflexivity.
  - apply (proj2 (proj2 (sign_square_sign (of_Z 3)))). reflexivity.
Defined.

(** *** NaN and the centre of a circle *)

Lemma is_nan_SFsub (x y : spec_float) :
  is_nan x || is_nan y = true -> is_nan (SFsub prec32 emax32 x y) = true.
Proof. destruct x as [|[]| |], y as [|[]| |]; try discriminate; reflexivity. Qed.

Lemma is_nan_SFadd (x y : spec_float) :
  is_nan x || is_nan y = true -> is_nan (SFadd prec32 emax32 x y) = true.
Proof. destruct x as [|[]| |], y as [|[]| |]; try discriminate; reflexivity. Qed.

Lemma is_nan_SFmul (x y : spec_float) :
  is_nan x || is_nan y = true -> is_nan (SFmul prec32 emax32 x y) = true.
Proof. destruct x, y; try discriminate; reflexivity. Qed.

Lemma SFltb_nan (x y : spec_float) :
  is_nan x || is_nan y = true -> SFltb x y = false.
Proof. destruct x as [|[]| |[]], y as [|[]| |[]]; try discriminate; reflexivity. Qed.

Lemma SFeqb_nan (x y : spec_float) :
  is_nan x || is_nan y = true -> SFeqb x y = false.
Proof. destruct x as [|[]| |[]], y as [|[]| |[]]; try discriminate; reflexivity. Qed.

(** [x - x] is a zero, or NaN when [x] is an infinity or NaN. *)
Lemma SFsub_diag (x : spec_float) :
  is_zero (SFsub prec32 emax32 x x) || is_nan (SFsub prec32 emax32 x x) = true.
Proof.
  destruct x as [[]|[]| |s m e]; try reflexivity.
  cbn [SFsub]. now rewrite Z.sub_diag.
Qed.

Lemma zero_or_nan_square_sum (dx dy : spec_float) :
  is_zero dx || is_nan dx = true -> is_zero dy || is_nan dy = true ->
  is_zero (SFadd prec32 emax32 (SFmul prec32 emax32 dx dx) (SFmul prec32 emax32 dy dy))
  || is_nan (SFadd prec32 emax32 (SFmul prec32 emax32 dx dx)
                                 (SFmul prec32 emax32 dy dy)) = true.
Proof.
  destruct dx as [[]| | |], dy as [[]| | |]; try discriminate; reflexivity.
Qed.

Lemma square_not_negative (r : spec_float) :
  is_negative (SFmul prec32 emax32 r r) = false.
Proof.
  destruct (is_negative r) eqn:Hr.
  - now apply (proj2 (proj2 (SFmul_sign r r))).
  - now apply (proj1 (proj2 (SFmul_sign r r))).
Qed.

Lemma SFltb_zero_or_nan (y z : spec_float) :
  is_negative y = false -> is_zero z || is_nan z = true -> SFltb y z = false.
Proof.
  destruct z as [sz| | |]; try discriminate; intros Hy _;
    float_cases y; try discriminate; reflexivity.
Qed.

(** X7: the centre of a circle collides with the circle, and two circles
    with the same centre collide, for every float: whatever the radii are
    (negative, zero or NaN) and also at an infinite or NaN centre. *)
Theorem circle_centre_inside (x y r1 r2 : float32) :
  collision_point_circle x y x y r1 = true
  /\ collision_circle_circle x y r1 x y r2 = true.
Proof.
  unfold collision_point_circle, collision_circle_circle. f32.
  pose proof (zero_or_nan_square_sum _ _ (SFsub_diag x) (SFsub_diag y)) as Hsum.
  split; rewrite SFltb_zero_or_nan; auto using square_not_negative.
Qed.

(** X8: [collision_point_circle] and [collision_circle_circle] answer true
    as soon as one of their arguments is NaN: the comparison of the squared
    distance with the squared radius is then false, and only that
    comparison rejects. *)
Theorem circle_routines_accept_nan (x1 y1 r1 x2 y2 r2 : float32) :
  (is_nan x1 || is_nan y1 || is_nan x2 || is_nan y2 || is_nan r2 = true ->
   collision_point_circle x1 y1 x2 y2 r2 = true)
  /\ (is_nan x1 || is_nan y1 || is_nan r1 || is_nan x2 || is_nan y2 || is_nan r2 = true ->
      collision_circle_circle x1 y1 r1 x2 y2 r2 = true).
Proof.
  unfold collision_point_circle, collision_circle_circle. f32.
  split; intros H; rewrite SFltb_nan; auto;
    apply orb_true_iff;
    repeat (apply orb_true_iff in H; destruct H as [H|H]);
    first
      [ left; apply is_nan_SFmul, orb_true_iff; left;
        first [ exact H | apply is_nan_SFadd; now rewrite H, ?orb_true_r ]
      | right; apply is_nan_SFadd, orb_true_iff;
        first
          [ left; apply is_nan_SFmul, orb_true_iff; left; apply is_nan_SFsub;
            now rewrite H, ?orb_true_r
          | right; apply is_nan_SFmul, orb_true_iff; left; apply is_nan_SFsub;
            now rewrite H, ?orb_true_r ] ].
Qed.

Lemma circle_routines_accept_nan_witness :
  collision_point_circle S754_nan (of_Z 0) (of_Z 5) (of_Z 5) (of_Z 1) = true
  /\ collision_circle_circle (of_Z 0) (of_Z 0) (of_Z 1)
                             (of_Z 9) (of_Z 9) S754_nan = true.
Proof.
  split.
  - apply (proj1 (circle_routines_accept_nan S754_nan (of_Z 0) (of_Z 1)
                    (of_Z 5) (of_Z 5) (of_Z 1))).
    reflexivity.
  - apply (proj2 (circle_routines_accept_nan (of_Z 0) (of_Z 0) (of_Z 1)
                    (of_Z 9) (of_Z 9) S754_nan)).
    reflexivity.
Defined.

(** X9: [collision_point_point] and [collision_point_line] answer false as
    soon as one of their arguments is NaN: equality with NaN is false, and
    the cross products of [collision_point_line] are then unequal. *)
Theorem point_routines_reject_nan (x1 y1 x2 y2 dx2 dy2 : float32) :
  (is_nan x1 || is_nan y1 || is_nan x2 || is_nan y2 = true ->
   collision_point_point x1 y1 x2 y2 = false)
  /\ (is_nan x1 || is_nan y1 || is_nan x2 || is_nan y2
      || is_nan dx2 || is_nan dy2 = true ->
      collision_point_line x1 y1 x2 y2 dx2 dy2 = false).
Proof.
  unfold collision_point_point, collision_point_line. f32. split; intros H.
  - repeat (apply orb_true_iff in H; destruct H as [H|H]).
    + rewrite (SFeqb_nan x1 x2); [reflexivity | now rewrite H].
    + rewrite (SFeqb_nan y1 y2); [apply andb_false_r | now rewrite H].
    + rewrite (SFeqb_nan x1 x2); [reflexivity | now rewrite H, orb_true_r].
    + rewrite (SFeqb_nan y1 y2); [apply andb_false_r | now rewrite H, orb_true_r].
  - rewrite SFeqb_nan; [reflexivity|].
    apply orb_true_iff.
    repeat (apply orb_true_iff in H; destruct H as [H|H]);
      first
        [ left; apply is_nan_SFmul, orb_true_iff;
          first [ right; exact H
                | left; apply is_nan_SFsub; now rewrite H, ?orb_true_r ]
        | right; apply is_nan_SFmul, orb_true_iff;
          first [ right; exact H
                | left; apply is_nan_SFsub; now rewrite H, ?orb_true_r ] ].
Qed.

Lemma point_routines_reject_nan_witness :
  collision_point_point (of_Z 1) S754_nan (of_Z 1) S754_nan = false
  /\ collision_point_line (of_Z 0) (of_Z 0) (of_Z 0) (of_Z 0) S754_nan (of_Z 1)
     = false.
Proof.
  split.
  - apply (proj1 (point_routines_reject_nan (of_Z 1) S754_nan (of_Z 1) S754_nan
                    (of_Z 0) (of_Z 0))).
    reflexivity.
  - apply (proj2 (point_routines_reject_nan (of_Z 0) (of_Z 0) (of_Z 0) (of_Z 0)
                    S754_nan (of_Z 1))).
    reflexivity.
Defined.

(** *** The sign of the radii *)

Lemma SFadd_opp_opp (x y : spec_float) :
  zeq (SFadd prec32 emax32 (SFopp x) (SFopp y)) (SFopp (SFadd prec32 emax32 x y)).
Proof.
  destruct x as [sx|sx| |sx mx ex], y as [sy|sy| |sy my ey]; simpl; auto;
    try (destruct sx, sy; simpl; auto; reflexivity); try reflexivity.
  rewrite <- binary_normalize_opp, !cond_Zopp_negb.
  apply eq_zeq; f_equal; lia.
Qed.

(** X10: the remaining routines that take a circle do not depend on the
    sign of a radius either: [collision_line_circle] and
    [collision_circle_triangle] are unchanged when the radius is negated,
    and [collision_circle_circle] when both radii are. *)
Theorem negated_radius_other_routines
    (x1 y1 dx1 dy1 x2 y2 r r' sxa2 sya2 sxb2 syb2 : float32) :
  collision_line_circle x1 y1 dx1 dy1 x2 y2 r
  = collision_line_circle x1 y1 dx1 dy1 x2 y2 (- r)
  /\ collision_circle_triangle x1 y1 r x2 y2 sxa2 sya2 sxb2 syb2
     = collision_circle_triangle x1 y1 (- r) x2 y2 sxa2 sya2 sxb2 syb2
  /\ collision_circle_circle x1 y1 r x2 y2 r'
     = collision_circle_circle x1 y1 (- r) x2 y2 (- r').
Proof.
  repeat split.
  - unfold collision_line_circle. f32. now rewrite !SFmul_opp_opp.
  - unfold collision_circle_triangle. f32. now rewrite !SFmul_opp_opp.
  - unfold collision_circle_circle. f32.
    now rewrite SFadd_opp_opp, SFmul_opp_opp.
Qed.

(** *** Boxes and their corners *)

(** X11: for extents that are not negative, the origin corner of a box and
    its opposite corner [(x2 + w2, y2 + h2)] are inside the box. *)
Theorem box_corners_inside (x2 y2 w2 h2 : float32) :
  is_float32 x2 = true -> is_float32 y2 = true ->
  is_float32 w2 = true -> is_float32 h2 = true ->
  (zero <= w2) = true -> (zero <= h2) = true ->
  collision_point_box x2 y2 x2 y2 w2 h2 = true
  /\ collision_point_box (x2 + w2) (y2 + h2) x2 y2 w2 h2 = true.
Proof.
  intros Vx Vy Vw Vh Hw Hh.
  unfold collision_point_box. f32.
  rewrite !SFltb_irrefl.
  rewrite (SFadd_nonneg_not_below prec32 emax32 eq_refl x2 w2 Vx Vw Hw).
  rewrite (SFadd_nonneg_not_below prec32 emax32 eq_refl y2 h2 Vy Vh Hh).
  split; reflexivity.
Qed.

Lemma box_corners_inside_witness :
  collision_point_box (of_Z 1) (of_Z 2) (of_Z 1) (of_Z 2) (of_Z 3) (of_Z 4) = true
  /\ collision_point_box (of_Z 1 + of_Z 3) (of_Z 2 + of_Z 4)
                         (of_Z 1) (of_Z 2) (of_Z 3) (of_Z 4) = true.
Proof. apply box_corners_inside; reflexivity. Defined.

(** "Not below" is transitive through a float that is not NaN. *)
Lemma not_below_trans (a b c : spec_float) :
  is_nan b = false -> SFltb b a = false -> SFltb c b = false -> SFltb c a = false.
Proof.
  intros Nb Hab Hbc.
  destruct (is_nan a) eqn:Na; [apply SFltb_nan; now rewrite Na, orb_true_r|].
  destruct (is_nan c) eqn:Nc; [apply SFltb_nan; now rewrite Nc|].
  now apply (SFltb_false_trans a b c).
Qed.

(** X12: a box with extents that are not negative collides with every box
    that contains its origin corner. *)
Theorem box_box_of_origin_in_box (x1 y1 w1 h1 x2 y2 w2 h2 : float32) :
  is_float32 x1 = true -> is_float32 y1 = true ->
  is_float32 w1 = true -> is_float32 h1 = true ->
  (zero <= w1) = true -> (zero <= h1) = true ->
  collision_point_box x1 y1 x2 y2 w2 h2 = true ->
  collision_box_box x1 y1 w1 h1 x2 y2 w2 h2 = true.
Proof.
  intros Vx Vy Vw Vh Hw Hh.
  unfold collision_point_box, collision_box_box. f32.
  pose proof (SFadd_nonneg_not_below prec32 emax32 eq_refl x1 w1 Vx Vw Hw) as Hx.
  pose proof (SFadd_nonneg_not_below prec32 emax32 eq_refl y1 h1 Vy Vh Hh) as Hy.
  destruct (SFltb x1 x2) eqn:H1; [discriminate|].
  destruct (SFltb y1 y2) eqn:H2; [discriminate|].
  destruct (SFltb (SFadd prec32 emax32 x2 w2) x1); [discriminate|].
  destruct (SFltb (SFadd prec32 emax32 y2 h2) y1); [discriminate|].
  intros _.
  assert (Hx2 : SFltb (SFadd prec32 emax32 x1 w1) x2 = false).
  { destruct (is_nan x1) eqn:Nx.
    - apply SFltb_nan. now rewrite is_nan_SFadd by now rewrite Nx.
    - now apply (not_below_trans x2 x1). }
  assert (Hy2 : SFltb (SFadd prec32 emax32 y1 h1) y2 = false).
  { destruct (is_nan y1) eqn:Ny.
    - apply SFltb_nan. now rewrite is_nan_SFadd by now rewrite Ny.
    - now apply (not_below_trans y2 y1). }
  now rewrite Hx2, Hy2.
Qed.

Lemma box_box_of_origin_in_box_witness :
  collision_point_box (of_Z 3) (of_Z 3) (of_Z 0) (of_Z 0) (of_Z 4) (of_Z 4) = true
  /\ collision_box_box (of_Z 3) (of_Z 3) (of_Z 9) (of_Z 9)
                       (of_Z 0) (of_Z 0) (of_Z 4) (of_Z 4) = true.
Proof.
  split; [reflexivity|]. apply box_box_of_origin_in_box; reflexivity.
Defined.

(** *** Segments *)

Lemma binary_round_sign (s : bool) (m : positive) (e : Z) :
  match binary_round prec32 emax32 s m e with
  | S754_zero s' | S754_infinity s' | S754_finite s' _ _ => s' = s
  | S754_nan => True
  end.
Proof.
  unfold binary_round. destruct (shl_align m e _) as [mz ez].
  apply binary_round_aux_sign.
Qed.

(** A sum of floats that are not below zero is not below zero. *)
Lemma SFadd_not_negative (x y : spec_float) :
  is_negative x = false -> is_negative y = false ->
  is_negative (SFadd prec32 emax32 x y) = false.
Proof.
  destruct x as [sx|[]| |[] mx ex], y as [sy|[]| |[] my ey];
    try discriminate; intros _ _; try reflexivity;
    try (destruct sx, sy; reflexivity).
  cbn [SFadd cond_Zopp].
  change (Z.pos ?a + Z.pos ?b)%Z with (Z.pos (a + b)). cbn [binary_normalize].
  match goal with |- context [binary_round _ _ false ?m ?e] =>
    pose proof (binary_round_sign false m e) as Hs;
    destruct (binary_round prec32 emax32 false m e) as [s'|s'| |s' m' e']
  end; try subst s'; reflexivity.
Qed.

Lemma SFltb_zero_l (x : spec_float) (s : bool) :
  SFltb x (S754_zero s) = is_negative x.
Proof. float_cases x; reflexivity. Qed.

(** The origin of a segment with finite coordinates lies on the segment. *)
Lemma segment_origin_accepted (x2 y2 dx2 dy2 : float32) :
  is_finite x2 = true -> is_finite y2 = true ->
  is_finite dx2 = true -> is_finite dy2 = true ->
  collision_point_line x2 y2 x2 y2 dx2 dy2 = true.
Proof.
  intros Fx Fy Fdx Fdy. unfold collision_point_line, between, minmax. f32.
  pose proof (SFsub_diag_zero x2 Fx) as Hx.
  pose proof (SFsub_diag_zero y2 Fy) as Hy.
  pose proof (SFmul_zero_finite _ dy2 Hx Fdy) as Hxy.
  pose proof (SFmul_zero_finite _ dx2 Hy Fdx) as Hyx.
  pose proof (SFmul_zero_finite _ dx2 Hx Fdx) as Hxx.
  pose proof (SFmul_zero_finite _ dy2 Hy Fdy) as Hyy.
  pose proof (SFadd_not_negative _ _ (square_not_negative dx2)
                (square_not_negative dy2)) as HL.
  set (L := SFadd prec32 emax32 (SFmul prec32 emax32 dx2 dx2)
                                (SFmul prec32 emax32 dy2 dy2)) in *.
  destruct (SFmul prec32 emax32 (SFsub prec32 emax32 x2 x2) dy2) as [s1| | |];
    try discriminate.
  destruct (SFmul prec32 emax32 (SFsub prec32 emax32 y2 y2) dx2) as [s2| | |];
    try discriminate.
  destruct (SFmul prec32 emax32 (SFsub prec32 emax32 x2 x2) dx2) as [s3| | |];
    try discriminate.
  destruct (SFmul prec32 emax32 (SFsub prec32 emax32 y2 y2) dy2) as [s4| | |];
    try discriminate.
  cbn [SFeqb SFcompare negb].
  rewrite (SFltb_zero_l L false), HL. cbn [fst snd].
  assert (Hp : is_zero (SFadd prec32 emax32 (S754_zero s3) (S754_zero s4)) = true)
    by (destruct s3, s4; reflexivity).
  destruct (SFadd prec32 emax32 (S754_zero s3) (S754_zero s4)) as [sp| | |];
    try discriminate.
  rewrite (SFltb_zero_l L sp), HL. reflexivity.
Qed.

(** X13: the origin of a segment lies on the segment, for all finite
    coordinates and displacements (a zero displacement and products that
    overflow included). *)
Theorem point_line_origin_on_segment (x2 y2 dx2 dy2 : float32) :
  is_finite x2 = true -> is_finite y2 = true ->
  is_finite dx2 = true -> is_finite dy2 = true ->
  collision_point_line x2 y2 x2 y2 dx2 dy2 = true.
Proof. exact (segment_origin_accepted x2 y2 dx2 dy2). Qed.

Lemma point_line_origin_on_segment_witness :
  collision_point_line (of_Z 2) (of_Z 3) (of_Z 2) (of_Z 3) (of_Z 5) (of_Z (-7)) = true.
Proof. apply point_line_origin_on_segment; reflexivity. Defined.

(** X14: a segment with a finite origin collides with itself when the
    product of its two displacement components is finite (does not
    overflow). *)
Theorem line_line_reflexive (x1 y1 dx1 dy1 : float32) :
  is_finite x1 = true -> is_finite y1 = true -> is_finite (dx1 * dy1) = true ->
  collision_line_line x1 y1 dx1 dy1 x1 y1 dx1 dy1 = true.
Proof.
  intros Fx Fy Fp. unfold collision_line_line.
  assert (Fd : is_finite dx1 = true /\ is_finite dy1 = true).
  { revert Fp. f32. destruct dx1, dy1; try discriminate; auto. }
  destruct Fd as [Fdx Fdy].
  rewrite (segment_origin_accepted x1 y1 dx1 dy1 Fx Fy Fdx Fdy).
  assert (Hcross : is_zero (dx1 * dy1 - dy1 * dx1) = true).
  { revert Fp. f32. rewrite (SFmul_comm _ _ dy1 dx1). apply SFsub_diag_zero. }
  cbv zeta. destruct (dx1 * dy1 - dy1 * dx1) as [s| | |]; try discriminate.
  reflexivity.
Qed.

Lemma line_line_reflexive_witness :
  collision_line_line (of_Z 1) (of_Z 2) (of_Z 3) (of_Z 4)
                      (of_Z 1) (of_Z 2) (of_Z 3) (of_Z 4) = true.
Proof. apply line_line_reflexive; reflexivity. Defined.

(** The hypothesis on the product is needed: when it overflows the cross
    term is NaN, and the segment does not collide with itself. *)
Example line_line_overflow_not_reflexive :
  collision_line_line (of_Z 0) (of_Z 0) (of_Z (2 ^ 100)) (of_Z (2 ^ 100))
                      (of_Z 0) (of_Z 0) (of_Z (2 ^ 100)) (of_Z (2 ^ 100)) = false.
Proof. vm_compute. reflexivity. Qed.

(** X15: a segment of length zero collides with a box as soon as its origin
    lies on the line through one of the four sides of the box, wherever on
    that line (the four coordinate differences being finite): the side
    tests compare zeros, and a zero nominator over the zero displacement
    passes [fraction_between_zero_and_one]. *)
Theorem line_box_zero_displacement_on_side_line (x1 y1 x2 y2 w2 h2 : float32) :
  is_finite (x2 - x1) = true -> is_finite (x2 + w2 - x1) = true ->
  is_finite (y2 - y1) = true -> is_finite (y2 + h2 - y1) = true ->
  is_zero (x2 - x1) || is_zero (x2 + w2 - x1)
  || is_zero (y2 - y1) || is_zero (y2 + h2 - y1) = true ->
  collision_line_box x1 y1 zero zero x2 y2 w2 h2 = true.
Proof.
  unfold collision_line_box. f32.
  destruct (collision_point_box x1 y1 x2 y2 w2 h2); [reflexivity|].
  destruct (collision_point_box _ _ x2 y2 w2 h2); [reflexivity|].
  unfold fraction_between_zero_and_one, fraction_less_than_zero, constexpr_abs. f32.
  destruct (SFsub prec32 emax32 x2 x1) as [[]|[]| |[] m1 e1]; try discriminate;
    destruct (SFsub prec32 emax32 (SFadd prec32 emax32 x2 w2) x1)
      as [[]|[]| |[] m2 e2]; try discriminate;
    destruct (SFsub prec32 emax32 y2 y1) as [[]|[]| |[] m3 e3]; try discriminate;
    destruct (SFsub prec32 emax32 (SFadd prec32 emax32 y2 h2) y1)
      as [[]|[]| |[] m4 e4]; try discriminate;
    intros _ _ _ _ H; try discriminate H; reflexivity.
Qed.

Lemma line_box_zero_displacement_on_side_line_witness :
  collision_point_box (of_Z 0) (of_Z 5) (of_Z 0) (of_Z 0) (of_Z 1) (of_Z 1) = false
  /\ collision_line_box (of_Z 0) (of_Z 5) zero zero
                        (of_Z 0) (of_Z 0) (of_Z 1) (of_Z 1) = true.
Proof.
  split; [reflexivity|].
  apply line_box_zero_displacement_on_side_line; reflexivity.
Defined.

(** *** The fraction test at its borders, and the two edges of a triangle *)

(** X16: [fraction_between_zero_and_one n n] holds for every float: the
    upper border [1] of the range is included, and so are the quotients
    [0/0], [inf/inf] and [NaN/NaN]. *)
Theorem fraction_between_zero_and_one_same (n : float32) :
  fraction_between_zero_and_one n n = true.
Proof.
  unfold fraction_between_zero_and_one, fraction_less_than_zero. f32.
  rewrite SFltb_irrefl.
  destruct (SFeqb n (S754_zero false)); [reflexivity|].
  now destruct (SFltb n (S754_zero false)).
Qed.

Lemma fraction_between_zero_and_one_zeq (n n' d d' : float32) :
  zeq n n' -> zeq d d' ->
  fraction_between_zero_and_one n d = fraction_between_zero_and_one n' d'.
Proof.
  intros Hn Hd.
  destruct n as [sn|sn| |sn mn en], n' as [sn'|sn'| |sn' mn' en'];
    simpl in Hn; try discriminate Hn; try (inversion Hn; subst; clear Hn);
    try (rewrite !fraction_between_zero_and_one_zero by reflexivity; reflexivity);
    destruct d as [sd|sd| |sd md ed], d' as [sd'|sd'| |sd' md' ed'];
    simpl in Hd; try discriminate Hd; try (inversion Hd; subst; clear Hd);
    try reflexivity;
    repeat match goal with s : bool |- _ => destruct s end; reflexivity.
Qed.

(** Negating nominator and denominator does not change the test, for
    floats that are not NaN. *)
Lemma fraction_between_zero_and_one_opp (n d : float32) :
  is_nan n = false -> is_nan d = false ->
  fraction_between_zero_and_one (SFopp n) (SFopp d)
  = fraction_between_zero_and_one n d.
Proof.
  destruct n as [[]|[]| |[] mn en], d as [[]|[]| |[] md ed];
    try discriminate; intros _ _; reflexivity.
Qed.

(** X17: [collision_point_triangle] does not depend on the order in which
    the two edge vectors are given, as long as neither the denominator nor
    the combined nominator it computes is NaN. *)
Theorem point_triangle_edges_swap (x1 y1 x2 y2 sxa2 sya2 sxb2 syb2 : float32) :
  is_nan (sxa2 * syb2 - sxb2 * sya2) = false ->
  is_nan (((x1 - x2) * syb2 - (y1 - y2) * sxb2)
          - ((x1 - x2) * sya2 - (y1 - y2) * sxa2)) = false ->
  collision_point_triangle x1 y1 x2 y2 sxa2 sya2 sxb2 syb2
  = collision_point_triangle x1 y1 x2 y2 sxb2 syb2 sxa2 sya2.
Proof.
  unfold collision_point_triangle. cbv zeta.
  set (dx := x1 - x2). set (dy := y1 - y2).
  set (nu := dx * syb2 - dy * sxb2). set (nv := dx * sya2 - dy * sxa2).
  set (du := sxa2 * syb2 - sxb2 * sya2). set (du' := sxb2 * sya2 - sxa2 * syb2).
  intros Ndu Nnuv.
  assert (Hdu : zeq du' (- du)) by apply SFsub_antisym.
  assert (Hnuv : zeq (nv - nu) (- (nu - nv))) by apply SFsub_antisym.
  assert (E1 : fraction_between_zero_and_one nv du'
               = fraction_between_zero_and_one nv (- du))
    by (apply fraction_between_zero_and_one_zeq; [reflexivity | exact Hdu]).
  assert (E2 : fraction_between_zero_and_one nu (- du')
               = fraction_between_zero_and_one nu du).
  { apply fraction_between_zero_and_one_zeq; [reflexivity|].
    change (zeq (SFopp du') du). rewrite Hdu. apply eq_zeq, SFopp_involutive. }
  assert (E3 : fraction_between_zero_and_one (nv - nu) du'
               = fraction_between_zero_and_one (nu - nv) du).
  { transitivity (fraction_between_zero_and_one (- (nu - nv)) (- du)).
    - now apply fraction_between_zero_and_one_zeq.
    - now apply fraction_between_zero_and_one_opp. }
  rewrite E1, E2, E3.
  destruct (fraction_between_zero_and_one nu du),
           (fraction_between_zero_and_one nv (- du)),
           (fraction_between_zero_and_one (nu - nv) du);
    reflexivity.
Qed.

Lemma point_triangle_edges_swap_witness :
  collision_point_triangle (of_Z 0) (of_Z 0) (of_Z 0) (literal 2 10)
                           (of_Z 3) (of_Z (-1)) (of_Z (-3)) (of_Z (-1))
  = collision_point_triangle (of_Z 0) (of_Z 0) (of_Z 0) (literal 2 10)
                             (of_Z (-3)) (of_Z (-1)) (of_Z 3) (of_Z (-1)).
Proof. apply point_triangle_edges_swap; reflexivity. Defined.

(** *** Boxes, intervals and projections *)

(** X18: for a box with extents that are not negative,
    [collision_point_box] is [between] on both axes: the point's
    coordinates lie between the box's origin and its opposite corner. *)
Theorem point_box_is_between (x1 y1 x2 y2 w2 h2 : float32) :
  is_float32 x2 = true -> is_float32 y2 = true ->
  is_float32 w2 = true -> is_float32 h2 = true ->
  (zero <= w2) = true -> (zero <= h2) = true ->
  collision_point_box x1 y1 x2 y2 w2 h2
  = between x1 x2 (x2 + w2) && between y1 y2 (y2 + h2).
Proof.
  intros Vx Vy Vw Vh Hw Hh.
  unfold collision_point_box, between, minmax. f32.
  rewrite (SFadd_nonneg_not_below prec32 emax32 eq_refl x2 w2 Vx Vw Hw).
  rewrite (SFadd_nonneg_not_below prec32 emax32 eq_refl y2 h2 Vy Vh Hh).
  cbn [fst snd].
  now destruct (SFltb x1 x2), (SFltb y1 y2),
    (SFltb (SFadd prec32 emax32 x2 w2) x1), (SFltb (SFadd prec32 emax32 y2 h2) y1).
Qed.

Lemma point_box_is_between_witness :
  collision_point_box (of_Z 2) (of_Z 9) (of_Z 1) (of_Z 2) (of_Z 3) (of_Z 4)
  = between (of_Z 2) (of_Z 1) (of_Z 1 + of_Z 3)
    && between (of_Z 9) (of_Z 2) (of_Z 2 + of_Z 4).
Proof. apply point_box_is_between; reflexivity. Defined.

(** X19: for two boxes with extents that are not negative,
    [collision_box_box] is the separating axis test on the two coordinate
    axes: [overlap] of the boxes' projections on the x axis and on the y
    axis. *)
Theorem box_box_is_overlap (x1 y1 w1 h1 x2 y2 w2 h2 : float32) :
  is_float32 x1 = true -> is_float32 y1 = true ->
  is_float32 w1 = true -> is_float32 h1 = true ->
  is_float32 x2 = true -> is_float32 y2 = true ->
  is_float32 w2 = true -> is_float32 h2 = true ->
  (zero <= w1) = true -> (zero <= h1) = true ->
  (zero <= w2) = true -> (zero <= h2) = true ->
  (do ox <- overlap [x1; x1 + w1] [x2; x2 + w2];
   do oy <- overlap [y1; y1 + h1] [y2; y2 + h2];
   Some (ox && oy))
  = Some (collision_box_box x1 y1 w1 h1 x2 y2 w2 h2).
Proof.
  intros Vx1 Vy1 Vw1 Vh1 Vx2 Vy2 Vw2 Vh2 Hw1 Hh1 Hw2 Hh2.
  unfold collision_box_box, overlap, minmax_list, minmax_from. f32.
  rewrite (SFadd_nonneg_not_below prec32 emax32 eq_refl x1 w1 Vx1 Vw1 Hw1).
  rewrite (SFadd_nonneg_not_below prec32 emax32 eq_refl y1 h1 Vy1 Vh1 Hh1).
  rewrite (SFadd_nonneg_not_below prec32 emax32 eq_refl x2 w2 Vx2 Vw2 Hw2).
  rewrite (SFadd_nonneg_not_below prec32 emax32 eq_refl y2 h2 Vy2 Vh2 Hh2).
  cbn [fst snd].
  now destruct (SFltb (SFadd prec32 emax32 x1 w1) x2),
    (SFltb (SFadd prec32 emax32 y1 h1) y2),
    (SFltb (SFadd prec32 emax32 x2 w2) x1),
    (SFltb (SFadd prec32 emax32 y2 h2) y1).
Qed.

Lemma box_box_is_overlap_witness :
  (do ox <- overlap [of_Z 0; of_Z 0 + of_Z 4] [of_Z 3; of_Z 3 + of_Z 2];
   do oy <- overlap [of_Z 0; of_Z 0 + of_Z 4] [of_Z 5; of_Z 5 + of_Z 1];
   Some (ox && oy))
  = Some (collision_box_box (of_Z 0) (of_Z 0) (of_Z 4) (of_Z 4)
                            (of_Z 3) (of_Z 5) (of_Z 2) (of_Z 1)).
Proof. apply box_box_is_overlap; reflexivity. Defined.

(** *** Circles with a NaN radius, circles at the origin of a segment *)

Lemma overlap_nan_interval (a : spec_float) (l : list spec_float) :
  overlap (L := SFltb) (a :: l) [S754_nan; S754_nan] = Some true.
Proof.
  unfold overlap.
  destruct (minmax_list_nonempty SFltb a l) as (lo & hi & ->).
  cbn [minmax_list minmax_from ltb SFltb SFcompare fst snd]. unfold ltb.
  now rewrite (SFltb_nan hi S754_nan) by apply orb_true_r.
Qed.

Lemma between_nan_borders (value : spec_float) :
  between (L := SFltb) value S754_nan S754_nan = true.
Proof.
  unfold between, minmax, ltb. cbn [SFltb SFcompare fst snd].
  now rewrite (SFltb_nan value S754_nan) by apply orb_true_r.
Qed.

(** X20: a circle whose radius is NaN collides with every segment, box and
    triangle: [collision_line_circle], [collision_circle_box] and
    [collision_circle_triangle] answer true, whatever the other arguments
    are. *)
Theorem nan_radius_collides
    (x1 y1 dx1 dy1 x2 y2 r w2 h2 sxa2 sya2 sxb2 syb2 : float32) :
  is_nan r = true ->
  collision_line_circle x1 y1 dx1 dy1 x2 y2 r = Some true
  /\ collision_circle_box x1 y1 r x2 y2 w2 h2 = Some true
  /\ collision_circle_triangle x1 y1 r x2 y2 sxa2 sya2 sxb2 syb2 = Some true.
Proof.
  destruct r; try discriminate. intros _.
  unfold collision_line_circle, collision_circle_box, collision_circle_triangle.
  f32. cbn [SFmul SFopp].
  rewrite !overlap_nan_interval, between_nan_borders. cbn [negb].
  repeat split;
    repeat first
      [ rewrite overlap_nan_interval; cbn [negb]
      | match goal with
        | |- context [if SFltb ?a ?b then _ else _] => destruct (SFltb a b)
        end ];
    reflexivity.
Qed.

Lemma nan_radius_collides_witness :
  collision_line_circle (of_Z 0) (of_Z 0) (of_Z 1) (of_Z 0)
                        (of_Z 50) (of_Z 50) S754_nan = Some true.
Proof.
  apply (nan_radius_collides (of_Z 0) (of_Z 0) (of_Z 1) (of_Z 0) (of_Z 50) (of_Z 50)
           S754_nan (of_Z 0) (of_Z 0) (of_Z 0) (of_Z 0) (of_Z 0) (of_Z 0)).
  reflexivity.
Defined.

Lemma between_zero_symmetric (z M : float32) :
  is_zero z = true -> is_negative M = false ->
  @between float32 SFltb z (SFopp M) M = true.
Proof.
  destruct z as [sz| | |]; try discriminate.
  destruct M as [[]|[]| |[] m e]; try discriminate;
    destruct sz; intros _ _; reflexivity.
Qed.

Lemma overlap_zero_or_nan (a b P : float32) :
  is_zero a || is_nan a = true -> is_zero b || is_nan b = true ->
  is_zero P || is_nan P = true ->
  @overlap float32 SFltb [a; b] [SFopp P; P] = Some true.
Proof.
  destruct a as [[]| | |], b as [[]| | |], P as [[]| | |];
    try discriminate; intros _ _ _; reflexivity.
Qed.

Lemma SFmul_zero_or_nan_r (R z : spec_float) :
  is_zero z || is_nan z = true ->
  is_zero (SFmul prec32 emax32 R z) || is_nan (SFmul prec32 emax32 R z) = true.
Proof. destruct R, z; try discriminate; reflexivity. Qed.

Lemma sign_square_zero_or_nan (z : float32) :
  is_zero z || is_nan z = true ->
  is_zero (sign_square z) || is_nan (sign_square z) = true.
Proof. destruct z as [[]| | |]; try discriminate; reflexivity. Qed.

Lemma not_above_zero_or_nan (s : bool) (D : spec_float) :
  is_negative D = false -> SFltb (S754_zero s) D = false ->
  is_zero D || is_nan D = true.
Proof. destruct D as [|[]| |[]]; try discriminate; reflexivity. Qed.

(** X21: a circle centred at the origin of a segment collides with the
    segment, for all finite coordinates and displacements and whatever the
    radius is (zero, negative, infinite or NaN). *)
Theorem line_circle_centre_at_origin (x y dx dy r : float32) :
  is_finite x = true -> is_finite y = true ->
  is_finite dx = true -> is_finite dy = true ->
  collision_line_circle x y dx dy x y r = Some true.
Proof.
  intros Fx Fy Fdx Fdy. unfold collision_line_circle. f32.
  fold float32_scalar.
  pose proof (SFsub_diag_zero x Fx) as Hzx.
  pose proof (SFsub_diag_zero y Fy) as Hzy.
  revert Hzx Hzy.
  generalize (SFsub prec32 emax32 x x) (SFsub prec32 emax32 y y).
  intros zx zy Hzx Hzy.
  (* the radius enters through its square, which is not below zero *)
  pose proof (square_not_negative r) as HR.
  revert HR. generalize (SFmul prec32 emax32 r r). intros R HR.
  (* the squared length and the squared distance to the end point *)
  pose proof (SFadd_not_negative _ _ (square_not_negative dx) (square_not_negative dy))
    as HL.
  pose proof (SFadd_not_negative _ _
                (square_not_negative (SFsub prec32 emax32 zx dx))
                (square_not_negative (SFsub prec32 emax32 zy dy))) as HD.
  revert HL HD.
  generalize (SFadd prec32 emax32 (SFmul prec32 emax32 dx dx)
                                  (SFmul prec32 emax32 dy dy)).
  generalize (SFadd prec32 emax32
                (SFmul prec32 emax32 (SFsub prec32 emax32 zx dx)
                                     (SFsub prec32 emax32 zx dx))
                (SFmul prec32 emax32 (SFsub prec32 emax32 zy dy)
                                     (SFsub prec32 emax32 zy dy))).
  intros D L HL HD.
  (* every product with a vanishing difference vanishes *)
  pose proof (SFmul_zero_finite zy dx Hzy Fdx) as H1.
  pose proof (SFmul_zero_finite zx dy Hzx Fdy) as H2.
  rewrite (SFmul_comm _ _ dx zx), (SFmul_comm _ _ dy zy).
  pose proof (SFmul_zero_finite zx dx Hzx Fdx) as H3.
  pose proof (SFmul_zero_finite zy dy Hzy Fdy) as H4.
  revert H1 H2 H3 H4.
  generalize (SFmul prec32 emax32 zy dx) (SFmul prec32 emax32 zx dy)
             (SFmul prec32 emax32 zx dx) (SFmul prec32 emax32 zy dy).
  intros p1 p2 p3 p4 H1 H2 H3 H4.
  destruct zx as [s1| | |], zy as [s2| | |], p1 as [t1| | |], p2 as [t2| | |],
           p3 as [t3| | |], p4 as [t4| | |]; try discriminate.
  clear Hzx Hzy H1 H2 H3 H4.
  assert (HM : is_negative (SFmul prec32 emax32 R L) = false)
    by now apply (proj1 (proj2 (SFmul_sign R L))).
  assert (Hn : is_zero (SFsub prec32 emax32 (S754_zero t1) (S754_zero t2)) = true)
    by now destruct t1, t2.
  assert (Hs : forall z : float32, is_zero z = true -> is_zero (sign_square z) = true)
    by (intros [[]| | |]; try discriminate; reflexivity).
  rewrite (between_zero_symmetric _ _ (Hs _ Hn) HM). cbn [negb].
  assert (HD1 : is_zero (SFadd prec32 emax32
                           (SFmul prec32 emax32 (S754_zero s1) (S754_zero s1))
                           (SFmul prec32 emax32 (S754_zero s2) (S754_zero s2))) = true)
    by now destruct s1, s2.
  revert HD1.
  generalize (SFadd prec32 emax32
                (SFmul prec32 emax32 (S754_zero s1) (S754_zero s1))
                (SFmul prec32 emax32 (S754_zero s2) (S754_zero s2))).
  intros D1 HD1. destruct D1 as [u| | |]; try discriminate. clear HD1.
  assert (Hp2 : is_zero (SFsub prec32 emax32
                           (SFsub prec32 emax32 (S754_zero u) (S754_zero t3))
                           (S754_zero t4)) = true)
    by now destruct u, t3, t4.
  assert (Z2N : forall z : float32, is_zero z = true -> is_zero z || is_nan z = true)
    by (intros z ->; reflexivity).
  destruct (SFltb (S754_zero u) D) eqn:Hlt.
  - rewrite overlap_zero_or_nan; auto.
    apply SFmul_zero_or_nan_r. reflexivity.
  - pose proof (not_above_zero_or_nan u D HD Hlt) as HDz.
    rewrite overlap_zero_or_nan; auto using sign_square_zero_or_nan.
    now apply SFmul_zero_or_nan_r.
Qed.

Lemma line_circle_centre_at_origin_witness :
  collision_line_circle (of_Z 1) (of_Z 2) (of_Z 3) (of_Z 4) (of_Z 1) (of_Z 2) (of_Z 0)
  = Some true.
Proof. apply line_circle_centre_at_origin; reflexivity. Defined.

Lemma overlap_nan_segment (p d z b : float32) :
  is_nan p = true ->
  @overlap float32 SFltb [p; SFadd prec32 emax32 p d] [z; b] = Some true.
Proof.
  destruct p; try discriminate. intros _. cbn [SFadd].
  rewrite overlap_symmetric. apply overlap_nan_interval.
Qed.

Ltac nan_solve :=
  solve
    [ assumption
    | first [ apply is_nan_SFsub | apply is_nan_SFadd | apply is_nan_SFmul ];
      apply orb_true_iff;
      first [ left; nan_solve | right; nan_solve ] ].

(** X22: [collision_line_triangle] answers true as soon as a coordinate of
    the segment's origin or of the triangle's base vertex is NaN: every
    projection it compares is then NaN, and no comparison with NaN
    separates. *)
Theorem line_triangle_accepts_nan_position
    (x1 y1 dx1 dy1 x2 y2 sxa2 sya2 sxb2 syb2 : float32) :
  is_nan x1 || is_nan y1 || is_nan x2 || is_nan y2 = true ->
  collision_line_triangle x1 y1 dx1 dy1 x2 y2 sxa2 sya2 sxb2 syb2 = Some true.
Proof.
  intros H. unfold collision_line_triangle. f32.
  assert (Hn : is_nan (SFsub prec32 emax32 x2 x1) = true
               \/ is_nan (SFsub prec32 emax32 y2 y1) = true).
  { rewrite !orb_true_iff in H.
    destruct H as [[[H|H]|H]|H]; [left|right|left|right];
      apply is_nan_SFsub; rewrite H; rewrite ?orb_true_r; reflexivity. }
  revert Hn.
  generalize (SFsub prec32 emax32 x2 x1) (SFsub prec32 emax32 y2 y1).
  intros x21 y21 Hn.
  assert (N : forall t : float32, is_nan t = true -> SFltb t (S754_zero false) = false)
    by (intros t Ht; apply SFltb_nan; now rewrite Ht).
  destruct Hn as [Hn|Hn];
    rewrite !N by nan_solve; cbn [Z.b2z Z.add Z.eqb Pos.eqb];
    rewrite !overlap_nan_segment by nan_solve; reflexivity.
Qed.

Lemma line_triangle_accepts_nan_position_witness :
  collision_line_triangle S754_nan (of_Z 0) (of_Z 1) (of_Z 1)
                          (of_Z 50) (of_Z 50) (of_Z 1) (of_Z 0) (of_Z 0) (of_Z 1)
  = Some true.
Proof. apply line_triangle_accepts_nan_position; reflexivity. Defined.
